(** * GraphWrapper: the line-graph state of abc_shadow

    A shallow embedding of [abc_shadow/graph/graph_wrapper.py] and of the
    networkx operations it is built on, with the properties of the
    wrapper proved over the embedding.

    Conventions.
    - Python exceptions are values of [exn]; a call that may raise returns a
      [result].
    - A Python [dict] keeps insertion order; it is an association list with
      unique keys ([Dict]).  A Python [set] has no specified order; where
      networkx iterates over one, the model iterates in insertion order and
      the theorems speak of membership only.
    - Node labels of the observed graph are integers (what
      [nx.complete_graph] and [nx.path_graph] produce); a line-graph node is
      the pair of the two endpoints, smaller first.
    - networkx is modelled as in the 2.x releases the wrapper was written
      for: the line graph labels each of its nodes with the two endpoints
      sorted by value ([u <= v]).
    - The values handed to [int] are integers, booleans, strings, floats
      and [None].  A character of a string is a code point below 256; a
      float is a value of the IEEE 754 specification type [spec_float].
      [int] is the one of CPython 3.11, with its default limit of 4300
      digits on the conversion of a string. *)

From Stdlib Require Import ZArith List Bool Lia String Ascii Permutation SpecFloat.
Import ListNotations.
Local Open Scope Z_scope.

Set Implicit Arguments.

(** ** Python: exceptions and results *)

Inductive exn : Type :=
| TypeError
| ValueError
| KeyError
| AttributeError
| IndexError
| StopIteration
| OverflowError
| NetworkXError.

Inductive result (A : Type) : Type :=
| Ok (a : A)
| Raise (e : exn).

Arguments Ok {A} a.
Arguments Raise {A} e.

Definition bind {A B : Type} (r : result A) (k : A -> result B) : result B :=
  match r with
  | Ok a => k a
  | Raise e => Raise e
  end.

Notation "x <- r ;; k" := (bind r (fun x => k))
  (at level 61, r at next level, right associativity).

(** [[f(x) for x in l]] where [f] may raise: the first exception aborts. *)
Fixpoint mapM {A B : Type} (f : A -> result B) (l : list A) : result (list B) :=
  match l with
  | [] => Ok []
  | x :: t => y <- f x ;; ys <- mapM f t ;; Ok (y :: ys)
  end.

(** [[x for x in l if p(x)]] where [p] may raise. *)
Fixpoint filterM {A : Type} (p : A -> result bool) (l : list A) : result (list A) :=
  match l with
  | [] => Ok []
  | x :: t => b <- p x ;; ys <- filterM p t ;; Ok (if b then x :: ys else ys)
  end.

(** ** Hashable keys *)

Class Hashable (K : Type) : Type := {
  key_eqb : K -> K -> bool;
  key_eqb_spec : forall x y, reflect (x = y) (key_eqb x y)
}.

#[export] Instance Hashable_Z : Hashable Z :=
  {| key_eqb := Z.eqb; key_eqb_spec := Z.eqb_spec |}.

Definition pair_eqb_spec (A B : Type) `{Hashable A} `{Hashable B} (x y : A * B) :
  reflect (x = y) (key_eqb (fst x) (fst y) && key_eqb (snd x) (snd y)).
Proof.
  destruct x as [a b], y as [c d]; simpl.
  destruct (key_eqb_spec a c), (key_eqb_spec b d); simpl; constructor; congruence.
Defined.

#[export] Instance Hashable_pair (A B : Type) `{Hashable A} `{Hashable B} :
  Hashable (A * B) :=
  {| key_eqb := fun x y => key_eqb (fst x) (fst y) && key_eqb (snd x) (snd y);
     key_eqb_spec := @pair_eqb_spec A B _ _ |}.

Fixpoint list_eqb {A : Type} `{Hashable A} (l1 l2 : list A) : bool :=
  match l1, l2 with
  | [], [] => true
  | x :: t1, y :: t2 => key_eqb x y && list_eqb t1 t2
  | _, _ => false
  end.

Definition list_eqb_spec (A : Type) `{Hashable A} (l1 l2 : list A) :
  reflect (l1 = l2) (list_eqb l1 l2).
Proof.
  revert l2; induction l1 as [|x t1 IH]; intros [|y t2]; simpl;
    try (constructor; congruence).
  destruct (key_eqb_spec x y); simpl.
  - destruct (IH t2); constructor; congruence.
  - constructor; congruence.
Defined.

#[export] Instance Hashable_list (A : Type) `{Hashable A} : Hashable (list A) :=
  {| key_eqb := list_eqb; key_eqb_spec := @list_eqb_spec A _ |}.

(** ** Insertion-ordered dictionaries *)

Module Dict.
Section Dict.
Context {K V : Type} `{Hashable K}.

Definition t : Type := list (K * V).

(** [d.get(k)] *)
Fixpoint get (d : t) (k : K) : option V :=
  match d with
  | [] => None
  | (k', v) :: r => if key_eqb k k' then Some v else get r k
  end.

(** [d[k] = v]: overwrite in place, or append a new key. *)
Fixpoint set (d : t) (k : K) (v : V) : t :=
  match d with
  | [] => [(k, v)]
  | (k', v') :: r => if key_eqb k k' then (k', v) :: r else (k', v') :: set r k v
  end.

Definition keys (d : t) : list K := map fst d.

(** [k in d] *)
Definition mem (d : t) (k : K) : bool :=
  match get d k with Some _ => true | None => false end.

End Dict.
Arguments t : clear implicits.
End Dict.

(** ** networkx: undirected graphs

    [nx.Graph] keeps two dictionaries with the same keys, [_node] (node to
    attribute dict) and [_adj] (node to neighbour to edge attribute dict).
    The only attribute the wrapper ever reads or writes is ['type'], so an
    attribute dict is the [option Z] holding that entry.  One record per
    node carries both its attribute and its adjacency.

    In an undirected graph [_adj[u][v]] and [_adj[v][u]] are one and the
    same dict object; every write to an edge attribute below updates both
    entries. *)

Module nx.
Section Graph.
Context {K : Type} `{Hashable K}.

Record ndata : Type := mk_ndata {
  n_type : option Z;
  n_adj : Dict.t K (option Z)
}.

Definition Graph : Type := Dict.t K ndata.

(** [nx.Graph()] *)
Definition empty : Graph := [].

(** [list(G)], [G.nodes()] *)
Definition nodes (g : Graph) : list K := Dict.keys g.

(** [n in G] *)
Definition has_node (g : Graph) (n : K) : bool := Dict.mem g n.

(** [G._adj[u]] for a node [u] of [G] (empty for a stranger). *)
Definition adj (g : Graph) (u : K) : Dict.t K (option Z) :=
  match Dict.get g u with
  | Some d => n_adj d
  | None => []
  end.

(** [v in G[u]] *)
Definition has_edge (g : Graph) (u v : K) : bool := Dict.mem (adj g u) v.

(** The ['type'] attribute of node [n], when [n] is a node that has one. *)
Definition node_type (g : Graph) (n : K) : option Z :=
  match Dict.get g n with
  | Some d => n_type d
  | None => None
  end.

(** The ['type'] attribute of the edge [u]-[v], when there is one. *)
Definition edge_type (g : Graph) (u v : K) : option Z :=
  match Dict.get (adj g u) v with
  | Some a => a
  | None => None
  end.

(** [G.add_node(n)]: an existing node is left as it is. *)
Definition add_node (g : Graph) (n : K) : Graph :=
  if Dict.mem g n then g else Dict.set g n (mk_ndata None []).

(** [G.add_nodes_from(ns)] *)
Definition add_nodes_from (g : Graph) (ns : list K) : Graph :=
  fold_left add_node ns g.

(** [G._adj[u][v] = a] for a node [u]. *)
Definition set_adj (g : Graph) (u v : K) (a : option Z) : Graph :=
  match Dict.get g u with
  | Some d => Dict.set g u (mk_ndata (n_type d) (Dict.set (n_adj d) v a))
  | None => g
  end.

(** [G.add_edge(u, v, **attr)]:
    [datadict = self._adj[u].get(v, {}); datadict.update(attr);
     self._adj[u][v] = datadict; self._adj[v][u] = datadict].
    [upd] is the effect of [datadict.update(attr)] on the ['type'] entry. *)
Definition add_edge (upd : option Z -> option Z) (g : Graph) (u v : K) : Graph :=
  let g1 := add_node (add_node g u) v in
  let datadict := upd (edge_type g1 u v) in
  set_adj (set_adj g1 u v datadict) v u datadict.

(** [G.add_edges_from(ebunch, **attr)] *)
Definition add_edges_from (upd : option Z -> option Z) (g : Graph)
    (ebunch : list (K * K)) : Graph :=
  fold_left (fun g e => add_edge upd g (fst e) (snd e)) ebunch g.

(** No keyword attribute: [datadict.update({})]. *)
Definition no_attr (a : option Z) : option Z := a.

(** [type=v]: [datadict.update({'type': v})]. *)
Definition with_type (v : Z) (a : option Z) : option Z := Some v.

(** [G.edges()]: each edge once, from the endpoint met first;
    [seen] are the nodes already visited. *)
Fixpoint edges_from (g : Graph) (seen : list K) (ns : list K) : list (K * K) :=
  match ns with
  | [] => []
  | n :: r =>
      map (fun nbr => (n, nbr))
          (filter (fun nbr => negb (existsb (key_eqb nbr) seen)) (Dict.keys (adj g n)))
      ++ edges_from g (n :: seen) r
  end.

Definition edges (g : Graph) : list (K * K) := edges_from g [] (nodes g).

(** [G.edges(u)]: the edges at [u], as [(u, nbr)]. *)
Definition edges_at (g : Graph) (u : K) : list (K * K) :=
  map (fun nbr => (u, nbr)) (Dict.keys (adj g u)).

(** [G.degree(n)]: a self-loop counts twice. *)
Definition degree (g : Graph) (n : K) : Z :=
  Z.of_nat (List.length (adj g n)) + (if has_edge g n n then 1 else 0).

Definition number_of_nodes (g : Graph) : Z := Z.of_nat (List.length g).

(** [G.number_of_edges()]: half the sum of the degrees. *)
Definition number_of_edges (g : Graph) : Z :=
  fold_right Z.add 0 (map (degree g) (nodes g)) / 2.

(** [G.neighbors(n)] *)
Definition neighbors (g : Graph) (n : K) : result (list K) :=
  match Dict.get g n with
  | Some d => Ok (Dict.keys (n_adj d))
  | None => Raise NetworkXError
  end.

(** [G.add_edges_from(ebunch)] where every item is [(u, v, dd)]:
    [datadict.update(dd)] overwrites ['type'] when [dd] has it. *)
Definition merge_data (dd old : option Z) : option Z :=
  match dd with
  | Some t => Some t
  | None => old
  end.

Definition add_edges_with_data (g : Graph) (ebunch : list (K * K * option Z)) : Graph :=
  fold_left (fun acc e => add_edge (merge_data (snd e)) acc (fst (fst e)) (snd (fst e)))
            ebunch g.

(** [((u, v, d) for u, nbrs in G._adj.items() for v, d in nbrs.items())] *)
Definition adjacency_items (g : Graph) : list (K * K * option Z) :=
  flat_map (fun nd => map (fun va => (fst nd, fst va, snd va)) (n_adj (snd nd))) g.

(** [G.copy()]: a new graph, nodes then edges re-added with their data. *)
Definition copy (g : Graph) : Graph :=
  let g1 := fold_left (fun acc nd => Dict.set acc (fst nd) (mk_ndata (n_type (snd nd)) []))
                      g empty in
  add_edges_with_data g1 (adjacency_items g).

(** [nx.complement(G)]: same nodes, and an edge wherever [G] has none. *)
Definition complement (g : Graph) : Graph :=
  let r := add_nodes_from empty (nodes g) in
  add_edges_from no_attr r
    (flat_map (fun n =>
       map (fun n2 => (n, n2))
           (filter (fun n2 => negb (has_edge g n n2) && negb (key_eqb n n2)) (nodes g)))
       (nodes g)).

(** [nx.set_edge_attributes(G, v, 'type')]: every edge's dict gets
    ['type'] = v; the dict is shared by both directions. *)
Definition set_edge_attributes (g : Graph) (v : Z) : Graph :=
  map (fun nd => (fst nd,
                  mk_ndata (n_type (snd nd))
                           (map (fun va => (fst va, Some v)) (n_adj (snd nd))))) g.

(** [nx.get_edge_attributes(G, 'type')]: the edges that carry the
    attribute, keyed by [(u, v)] as [G.edges()] yields them. *)
Definition get_edge_attributes (g : Graph) : Dict.t (K * K) Z :=
  fold_left (fun d e => match edge_type g (fst e) (snd e) with
                        | Some v => Dict.set d e v
                        | None => d
                        end) (edges g) [].

(** [nx.set_node_attributes(G, v, 'type')] with a scalar [v]:
    every node gets the value. *)
Definition set_node_attributes_all (g : Graph) (v : Z) : Graph :=
  map (fun nd => (fst nd, mk_ndata (Some v) (n_adj (snd nd)))) g.

(** [G.nodes[n]['type'] = v]; [KeyError] when [n] is not a node. *)
Definition set_node_type (g : Graph) (n : K) (v : Z) : result Graph :=
  match Dict.get g n with
  | Some d => Ok (Dict.set g n (mk_ndata (Some v) (n_adj d)))
  | None => Raise KeyError
  end.

(** [nx.set_node_attributes(G, values, 'type')] with a dict:
    [try: G._node[n]['type'] = v; except KeyError: pass]. *)
Definition set_node_attributes (g : Graph) (values : Dict.t K Z) : Graph :=
  fold_left (fun acc nv => match set_node_type acc (fst nv) (snd nv) with
                           | Ok acc' => acc'
                           | Raise _ => acc
                           end) values g.

(** [G.remove_edges_from(ebunch)]: edges that are absent are skipped. *)
Definition remove_adj (g : Graph) (u v : K) : Graph :=
  match Dict.get g u with
  | Some d => Dict.set g u (mk_ndata (n_type d)
                (filter (fun va => negb (key_eqb (fst va) v)) (n_adj d)))
  | None => g
  end.

Definition remove_edges_from (g : Graph) (ebunch : list (K * K)) : Graph :=
  fold_left (fun acc e =>
               if has_edge acc (fst e) (snd e)
               then remove_adj (remove_adj acc (fst e) (snd e)) (snd e) (fst e)
               else acc) ebunch g.

End Graph.
Arguments ndata : clear implicits.
Arguments Graph : clear implicits.
End nx.

(** ** networkx: generators and line graphs *)

(** A node of the observed graph. *)
Definition node : Type := Z.

(** A node of the line graph: an edge of the observed graph. *)
Definition EdgeId : Type := (node * node)%type.

(** [range(n)] *)
Definition range (n : Z) : list Z := map Z.of_nat (seq 0 (Z.to_nat n)).

(** [itertools.combinations(l, 2)] *)
Fixpoint combinations2 {A : Type} (l : list A) : list (A * A) :=
  match l with
  | [] => []
  | a :: r => map (pair a) r ++ combinations2 r
  end.

(** The [nodes_or_number] decorator of the generators: an integer [n]
    stands for the nodes [range(n)], and a negative one is refused. *)
Definition nodes_or_number (n : Z) : result (list node) :=
  if n <? 0 then Raise NetworkXError else Ok (range n).

(** The body of [nx.complete_graph]: every pair of the nodes is joined. *)
Definition complete_on (nodes : list node) : nx.Graph node :=
  let G := nx.add_nodes_from nx.empty nodes in
  if 1 <? Z.of_nat (List.length nodes)
  then nx.add_edges_from nx.no_attr G (combinations2 nodes)
  else G.

(** [nx.complete_graph(n)] *)
Definition complete_graph (n : Z) : result (nx.Graph node) :=
  nodes <- nodes_or_number n ;;
  Ok (complete_on nodes).

(** The body of [nx.path_graph]: each node is joined to the next. *)
Definition path_on (nodes : list node) : nx.Graph node :=
  let G := nx.add_nodes_from nx.empty nodes in
  nx.add_edges_from nx.no_attr G (combine nodes (tl nodes)).

(** [nx.path_graph(n)] *)
Definition path_graph (n : Z) : result (nx.Graph node) :=
  nodes <- nodes_or_number n ;;
  Ok (path_on nodes).

(** [sorted_node = lambda u, v: (u, v) if u <= v else (v, u)] *)
Definition sorted_node (u v : node) : EdgeId := if u <=? v then (u, v) else (v, u).

(** Tuple comparison [a <= b]. *)
Definition edge_leb (a b : EdgeId) : bool :=
  (fst a <? fst b) || ((fst a =? fst b) && (snd a <=? snd b)).

(** [_sorted_edge(u, v)]: [(u, v) if u <= v else (v, u)] *)
Definition _sorted_edge (a b : EdgeId) : EdgeId * EdgeId :=
  if edge_leb a b then (a, b) else (b, a).

(** [s.update(xs)] on a set kept in insertion order. *)
Definition set_update {A : Type} `{Hashable A} (s xs : list A) : list A :=
  fold_left (fun acc x => if existsb (key_eqb x) acc then acc else acc ++ [x]) xs s.

(** [for i, a in enumerate(nodes): [_sorted_edge(a, b) for b in nodes[i + 1:]]] *)
Fixpoint clique_edges (nodes : list EdgeId) : list (EdgeId * EdgeId) :=
  match nodes with
  | [] => []
  | a :: r => map (_sorted_edge a) r ++ clique_edges r
  end.

(** One turn of the loop [for u in G] of [_lg_undirected]. *)
Definition lg_step (G : nx.Graph node)
    (acc : nx.Graph EdgeId * list (EdgeId * EdgeId)) (u : node)
    : nx.Graph EdgeId * list (EdgeId * EdgeId) :=
  let nodes := map (fun x => sorted_node (fst x) (snd x)) (nx.edges_at G u) in
  let L := match nodes with
           | [a] => nx.add_node (fst acc) a
           | _ => fst acc
           end in
  (L, set_update (snd acc) (clique_edges nodes)).

(** [nx.line_graph(G)] for an undirected [G] ([_lg_undirected] without
    self-loops). *)
Definition line_graph (G : nx.Graph node) : nx.Graph EdgeId :=
  let acc := fold_left (lg_step G) (nx.nodes G) (nx.empty, []) in
  nx.add_edges_from nx.no_attr (fst acc) (snd acc).

(** ** networkx: the inverse line graph (Roussopoulos) *)

(** The nodes of the graph [inverse_line_graph] returns: the integer [0],
    a pair [(v, i)], or a tuple of nodes of its argument. *)
Inductive hnode (K : Type) : Type :=
| HInt (z : Z)
| HTagged (v : K) (i : Z)
| HCell (c : list K).

Arguments HInt {K} z.
Arguments HTagged {K} v i.
Arguments HCell {K} c.

Definition hnode_eqb {K : Type} `{Hashable K} (a b : hnode K) : bool :=
  match a, b with
  | HInt x, HInt y => x =? y
  | HTagged v i, HTagged w j => key_eqb v w && (i =? j)
  | HCell c, HCell d => list_eqb c d
  | _, _ => false
  end.

Definition hnode_eqb_spec (K : Type) `{Hashable K} (a b : hnode K) :
  reflect (a = b) (hnode_eqb a b).
Proof.
  destruct a as [x|v i|c], b as [y|w j|d]; simpl; try (constructor; congruence).
  - destruct (Z.eqb_spec x y); constructor; congruence.
  - destruct (key_eqb_spec v w), (Z.eqb_spec i j); simpl; constructor; congruence.
  - destruct (list_eqb_spec c d); constructor; congruence.
Defined.

#[export] Instance Hashable_hnode (K : Type) `{Hashable K} : Hashable (hnode K) :=
  {| key_eqb := hnode_eqb; key_eqb_spec := @hnode_eqb_spec K _ |}.

Section InverseLineGraph.
Context {K : Type} `{Hashable K}.

(** [x in l] *)
Definition py_in (x : K) (l : list K) : bool := existsb (key_eqb x) l.

(** [_triangles(G, e)]: the triangles of [G] through the edge [e]. *)
Definition _triangles (G : nx.Graph K) (e : K * K) : result (list (list K)) :=
  let u := fst e in
  let v := snd e in
  if negb (nx.has_node G u) then Raise NetworkXError else
  nu <- nx.neighbors G u ;;
  if negb (py_in v nu) then Raise NetworkXError else
  nv <- nx.neighbors G v ;;
  Ok (map (fun x => [u; v; x]) (filter (fun x => py_in x nv) nu)).

(** [_odd_triangle(G, T)]: some node outside [T] is adjacent to one or
    to three of its nodes. *)
Definition _odd_triangle (G : nx.Graph K) (T : list K) : result bool :=
  if negb (forallb (nx.has_node G) T) then Raise NetworkXError else
  present <- mapM (fun e => nb <- nx.neighbors G (snd e) ;; Ok (py_in (fst e) nb))
                  (combinations2 T) ;;
  if negb (forallb (fun b => b) present) then Raise NetworkXError else
  let T_neighbors :=
    fold_left (fun d t =>
      fold_left (fun d' v =>
                   if py_in v T then d'
                   else Dict.set d' v (match Dict.get d' v with
                                       | Some c => c + 1
                                       | None => 1
                                       end))
                (Dict.keys (nx.adj G t)) d) T [] in
  Ok (existsb (fun vc => (snd vc =? 1) || (snd vc =? 3)) T_neighbors).

(** [_select_starting_cell(G, starting_edge)]; [fuel] bounds the
    recursive calls. *)
Fixpoint _select_starting_cell (fuel : nat) (G : nx.Graph K)
    (starting_edge : option (K * K)) : option (result (list K)) :=
  match fuel with
  | O => None
  | S fuel' =>
      let chosen :=
        match starting_edge with
        | None => match nx.edges G with
                  | e :: _ => Ok e
                  | [] => Raise StopIteration
                  end
        | Some e =>
            match Dict.get G (snd e) with
            | None => Raise KeyError
            | Some d =>
                if negb (py_in (fst e) (Dict.keys (nx.n_adj d)))
                then Raise NetworkXError else Ok e
            end
        end in
      match chosen with
      | Raise x => Some (Raise x)
      | Ok e =>
          match _triangles G e with
          | Raise x => Some (Raise x)
          | Ok [] => Some (Ok [fst e; snd e])
          | Ok [T] =>
              match T with
              | [a; b; c] =>
                  match _triangles G (a, c), _triangles G (b, c) with
                  | Raise x, _ => Some (Raise x)
                  | Ok _, Raise x => Some (Raise x)
                  | Ok ac_edges, Ok bc_edges =>
                      if (List.length ac_edges =? 1)%nat then
                        if (List.length bc_edges =? 1)%nat then Some (Ok T)
                        else _select_starting_cell fuel' G (Some (b, c))
                      else _select_starting_cell fuel' G (Some (a, c))
                  end
              | _ => Some (Raise ValueError)
              end
          | Ok e_triangles =>
              match mapM (_odd_triangle G) e_triangles with
              | Raise x => Some (Raise x)
              | Ok odd =>
                  let odd_triangles :=
                    map fst (filter (fun Tb => snd Tb : bool) (combine e_triangles odd)) in
                  let r := List.length e_triangles in
                  let s := List.length odd_triangles in
                  if ((r =? 2) && (s =? 0))%nat then
                    Some (Ok (last e_triangles []))
                  else if ((r - 1 <=? s) && (s <=? r))%nat then
                    Some (Ok (set_update [] (List.concat odd_triangles)))
                  else Some (Raise NetworkXError)
              end
          end
      end
  end.

(** [l[-1]] *)
Definition py_last (l : list K) : result K :=
  match rev l with
  | x :: _ => Ok x
  | [] => Raise IndexError
  end.

(** The [while] loop of [_find_partition]; [fuel] bounds its turns. *)
Fixpoint find_partition_loop (fuel : nat) (G_partition : nx.Graph K)
    (P : list (list K)) (partitioned_vertices : list K)
    : option (result (list (list K))) :=
  match fuel with
  | O => None
  | S fuel' =>
      if 0 <? nx.number_of_edges G_partition then
        match py_last partitioned_vertices with
        | Raise x => Some (Raise x)
        | Ok u =>
            let nbrs := Dict.keys (nx.adj G_partition u) in
            if (List.length nbrs =? 0)%nat then
              find_partition_loop fuel' G_partition P (removelast partitioned_vertices)
            else
              let new_cell := u :: nbrs in
              if forallb (fun x => forallb (fun y => key_eqb x y || nx.has_edge G_partition x y)
                                           new_cell) new_cell
              then find_partition_loop fuel'
                     (nx.remove_edges_from G_partition (combinations2 new_cell))
                     (P ++ [new_cell]) (partitioned_vertices ++ new_cell)
              else Some (Raise NetworkXError)
        end
      else Some (Ok P)
  end.

(** [_find_partition(G, starting_cell)] *)
Definition _find_partition (fuel : nat) (G : nx.Graph K) (starting_cell : list K)
    : option (result (list (list K))) :=
  let G_partition := nx.remove_edges_from (nx.copy G) (combinations2 starting_cell) in
  find_partition_loop fuel G_partition [starting_cell] starting_cell.

(** [nx.inverse_line_graph(G)] *)
Definition inverse_line_graph (fuel : nat) (G : nx.Graph K)
    : option (result (nx.Graph (hnode K))) :=
  if nx.number_of_nodes G =? 0 then
    Some (Ok (nx.add_node nx.empty (HInt 0)))
  else if nx.number_of_nodes G =? 1 then
    match nx.nodes G with
    | v :: _ => Some (Ok (nx.add_edge nx.no_attr nx.empty (HTagged v 0) (HTagged v 1)))
    | [] => Some (Raise IndexError)
    end
  else if nx.number_of_edges G =? 0 then Some (Raise NetworkXError)
  else
    match _select_starting_cell fuel G None with
    | None => None
    | Some (Raise x) => Some (Raise x)
    | Some (Ok starting_cell) =>
        match _find_partition fuel G starting_cell with
        | None => None
        | Some (Raise x) => Some (Raise x)
        | Some (Ok P) =>
            let P_count :=
              map (fun u => (u, Z.of_nat (List.length (filter (key_eqb u) (List.concat P)))))
                  (nx.nodes G) in
            if 2 <? fold_right Z.max 0 (map snd P_count) then Some (Raise NetworkXError)
            else
              let W := map (fun uc => [fst uc]) (filter (fun uc => snd uc =? 1) P_count) in
              let H0 := nx.add_nodes_from (nx.add_nodes_from nx.empty (map HCell P))
                                          (map HCell W) in
              let meets (a b : hnode K) : bool :=
                match a, b with
                | HCell ca, HCell cb => existsb (fun x => py_in x cb) ca
                | _, _ => false
                end in
              Some (Ok (nx.add_edges_from nx.no_attr H0
                          (filter (fun ab => meets (fst ab) (snd ab))
                                  (combinations2 (nx.nodes H0)))))
        end
    end.

End InverseLineGraph.

(** ** Python: values and integer coercion *)

(** The values a caller may pass as an edge type. *)
Inductive pyval : Type :=
| PyInt (z : Z)
| PyBool (b : bool)
| PyStr (s : string)
| PyFloat (f : spec_float)
| PyNone.

(** Whitespace that [int] skips around the digits of a string.  Below 127
    a character is kept as it is and [Py_ISSPACE] decides: tab, line feed,
    vertical tab, form feed, carriage return, space.  From 127 on, the
    Unicode whitespace is first turned into a space: next line (133) and
    no-break space (160) are the two below 256. *)
Definition is_space (c : ascii) : bool :=
  let n := nat_of_ascii c in
  ((9 <=? n) && (n <=? 13) || (n =? 32) || (n =? 133) || (n =? 160))%nat.

(** The decimal digits: below 256 these are ['0'] to ['9'] only. *)
Definition digit_of (c : ascii) : option Z :=
  let n := nat_of_ascii c in
  if ((48 <=? n) && (n <=? 57))%nat then Some (Z.of_nat (n - 48)) else None.

Fixpoint lstrip (s : string) : string :=
  match s with
  | String c r => if is_space c then lstrip r else s
  | EmptyString => s
  end.

Fixpoint rev_string (acc s : string) : string :=
  match s with
  | String c r => rev_string (String c acc) r
  | EmptyString => acc
  end.

Definition strip (s : string) : string :=
  rev_string EmptyString (lstrip (rev_string EmptyString (lstrip s))).

(** Where the scan of a decimal literal stands. *)
Inductive scan : Type := AtStart | AfterDigit | AfterUnderscore.

(** Decimal digits, a single underscore allowed between two digits. *)
Fixpoint digits_value (st : scan) (acc : Z) (s : string) : option Z :=
  match s with
  | EmptyString => match st with AfterDigit => Some acc | _ => None end
  | String c r =>
      match digit_of c with
      | Some d => digits_value AfterDigit (10 * acc + d) r
      | None =>
          if Ascii.eqb c "_"%char
          then match st with
               | AfterDigit => digits_value AfterUnderscore acc r
               | _ => None
               end
          else None
      end
  end.

(** The number of digit characters of a literal. *)
Fixpoint count_digits (s : string) : Z :=
  match s with
  | EmptyString => 0
  | String c r =>
      match digit_of c with
      | Some _ => 1 + count_digits r
      | None => count_digits r
      end
  end.

(** [sys.int_info.default_max_str_digits] *)
Definition int_max_str_digits : Z := 4300.

(** [int(s)] for a string, base 10: a malformed literal and a literal of
    more than [int_max_str_digits] digits are both a [ValueError]. *)
Definition int_of_string (s : string) : result Z :=
  let body := strip s in
  let parsed :=
    match body with
    | String c r =>
        if Ascii.eqb c "-"%char then option_map Z.opp (digits_value AtStart 0 r)
        else if Ascii.eqb c "+"%char then digits_value AtStart 0 r
        else digits_value AtStart 0 body
    | EmptyString => None
    end in
  match parsed with
  | Some z =>
      if int_max_str_digits <? count_digits body then Raise ValueError else Ok z
  | None => Raise ValueError
  end.

(** [int(x)] for a float [(-1)^s * m * 2^e]: the integral part, towards
    zero; an infinity is an [OverflowError], a NaN a [ValueError]. *)
Definition int_of_float (f : spec_float) : result Z :=
  match f with
  | S754_zero _ => Ok 0
  | S754_infinity _ => Raise OverflowError
  | S754_nan => Raise ValueError
  | S754_finite s m e =>
      let magnitude := Z.shiftl (Z.pos m) e in
      Ok (if s then - magnitude else magnitude)
  end.

(** [int(v)] *)
Definition py_int (v : pyval) : result Z :=
  match v with
  | PyInt z => Ok z
  | PyBool b => Ok (if b then 1 else 0)
  | PyStr s => int_of_string s
  | PyFloat f => int_of_float f
  | PyNone => Raise TypeError
  end.

(** [view / n] where [view] is the [dict_values] of a dict: the view type
    defines no division and [int] does not divide into it, so the
    operator raises [TypeError] whatever the operands hold. *)
Definition dict_values_truediv (view : list Z) (n : Z) : result (list Z) :=
  Raise TypeError.

(** [sum(xs)] *)
Definition py_sum (xs : list Z) : Z := fold_left Z.add xs 0.

(** ** The wrapper *)

Definition DEFAULT_DIM : Z := 10.

(** The class of a graph object handed to the constructor.
    [MultiDiGraph] derives from both [MultiGraph] and [DiGraph]. *)
Inductive graph_class : Type := Graph | DiGraph | MultiGraph | MultiDiGraph.

Definition isinstance_DiGraph (c : graph_class) : bool :=
  match c with DiGraph | MultiDiGraph => true | _ => false end.

Definition isinstance_MultiGraph (c : graph_class) : bool :=
  match c with MultiGraph | MultiDiGraph => true | _ => false end.

(** A networkx graph object: its class and, read as an undirected simple
    graph, its nodes and adjacency. *)
Record nx_object : Type := {
  cls : graph_class;
  content : nx.Graph node
}.

Record GraphWrapper : Type := { _graph : option (nx.Graph EdgeId) }.

(** [tuple(sorted(key))] for an edge key. *)
Definition sorted_key (key : node * node) : EdgeId := sorted_node (fst key) (snd key).

(** [{tuple(sorted(key)): val for key, val in attr.items()}] *)
Definition sort_keys (attr : Dict.t (node * node) Z) : Dict.t EdgeId Z :=
  fold_left (fun d kv => Dict.set d (sorted_key (fst kv)) (snd kv)) attr [].

(** [GraphWrapper.__init__(self, dim=DEFAULT_DIM, gr=None)] *)
Definition __init__ (dim : option Z) (gr : option nx_object) : result GraphWrapper :=
  match dim with
  | None => Ok {| _graph := None |}
  | Some dim =>
      match gr with
      | None =>
          graph <- complete_graph dim ;;
          Ok {| _graph := Some (nx.set_node_attributes_all (line_graph graph) 0) |}
      | Some gr =>
          if isinstance_DiGraph (cls gr) || isinstance_MultiGraph (cls gr)
          then Raise TypeError
          else
            let graph := nx.copy (content gr) in
            let compl_graph := nx.complement graph in
            let graph := nx.set_edge_attributes graph 1 in
            let graph := nx.add_edges_from (nx.with_type 0) graph (nx.edges compl_graph) in
            let attr := nx.get_edge_attributes graph in
            (* every key is a tuple, hence an Iterable *)
            let is_key_iterable := forallb (fun _ => true) (Dict.keys attr) in
            let attr := if is_key_iterable then sort_keys attr else attr in
            let graph := line_graph graph in
            Ok {| _graph := Some (nx.set_node_attributes graph attr) |}
      end
  end.

(** [GraphWrapper.get_graph] *)
Definition get_graph (self : GraphWrapper) : option (nx.Graph EdgeId) := _graph self.

(** Attribute access on [self._graph]: [None] has none of the graph's. *)
Definition the_graph (self : GraphWrapper) : result (nx.Graph EdgeId) :=
  match _graph self with
  | Some g => Ok g
  | None => Raise AttributeError
  end.

(** [GraphWrapper.get_initial_dim]: [len(nx.inverse_line_graph(self._graph))] *)
Definition get_initial_dim (fuel : nat) (self : GraphWrapper) : option (result Z) :=
  match the_graph self with
  | Raise x => Some (Raise x)
  | Ok g =>
      match inverse_line_graph fuel g with
      | None => None
      | Some (Raise x) => Some (Raise x)
      | Some (Ok H) => Some (Ok (nx.number_of_nodes H))
      end
  end.

(** [nx.get_node_attributes(G, 'type').values()] *)
Definition node_types (g : nx.Graph EdgeId) : list Z :=
  flat_map (fun nd => match nx.n_type (snd nd) with Some v => [v] | None => [] end) g.

(** [GraphWrapper.get_none_edge_count] *)
Definition get_none_edge_count (self : GraphWrapper) : result Z :=
  g <- the_graph self ;;
  Ok (Z.of_nat (List.length (filter (fun e => e =? 0) (node_types g)))).

(** [GraphWrapper.get_edge_count] *)
Definition get_edge_count (self : GraphWrapper) : result Z :=
  g <- the_graph self ;;
  Ok (Z.of_nat (List.length (filter (fun e => e =? 1) (node_types g)))).

(** [GraphWrapper.get_elements] *)
Definition get_elements (self : GraphWrapper) : result (list EdgeId) :=
  g <- the_graph self ;;
  Ok (nx.nodes g).

(** [GraphWrapper.get_edge_type]: [self._graph.nodes[edge_id]['type']] *)
Definition get_edge_type (self : GraphWrapper) (edge_id : EdgeId) : result Z :=
  g <- the_graph self ;;
  match Dict.get g edge_id with
  | None => Raise KeyError
  | Some d =>
      match nx.n_type d with
      | Some v => Ok v
      | None => Raise KeyError
      end
  end.

(** [GraphWrapper.get_particle] *)
Definition get_particle (self : GraphWrapper) (id : EdgeId) : result Z :=
  get_edge_type self id.

(** [GraphWrapper.is_active_edge] *)
Definition is_active_edge (self : GraphWrapper) (edge_id : EdgeId) : result bool :=
  v <- get_edge_type self edge_id ;;
  Ok (v =? 1).

(** [GraphWrapper.get_active_edges] *)
Definition get_active_edges (self : GraphWrapper) : result (list EdgeId) :=
  elements <- get_elements self ;;
  filterM (is_active_edge self) elements.

(** [GraphWrapper.set_edge_type]: the wrapper after the call, and the
    outcome of the call. *)
Definition set_edge_type (self : GraphWrapper) (edge_id : EdgeId) (new_val : pyval)
    : GraphWrapper * result unit :=
  match py_int new_val with
  | Raise ValueError => (self, Raise TypeError)
  | Raise x => (self, Raise x)
  | Ok val =>
      match the_graph self with
      | Raise x => (self, Raise x)
      | Ok g =>
          match nx.set_node_type g edge_id val with
          | Ok g' => ({| _graph := Some g' |}, Ok tt)
          | Raise x => (self, Raise x)
          end
      end
  end.

(** [GraphWrapper.set_particle] *)
Definition set_particle (self : GraphWrapper) (id : EdgeId) (new_val : pyval)
    : GraphWrapper * result unit :=
  set_edge_type self id new_val.

(** [self._graph.neighbors(edge)] *)
Definition graph_neighbors (self : GraphWrapper) (edge : EdgeId) : result (list EdgeId) :=
  g <- the_graph self ;;
  nx.neighbors g edge.

(** [GraphWrapper.get_edge_neighbourhood] *)
Definition get_edge_neighbourhood (self : GraphWrapper) (edge : EdgeId)
    : result (list EdgeId) :=
  ts <- graph_neighbors self edge ;;
  filterM (is_active_edge self) ts.

(** [G.degree(nbunch)] as a dict: the nodes of [nbunch] that are in [G]. *)
Definition degree_dict (g : nx.Graph EdgeId) (nbunch : list EdgeId) : Dict.t EdgeId Z :=
  fold_left (fun d n => if nx.has_node g n then Dict.set d n (nx.degree g n) else d)
            nbunch [].

(** [GraphWrapper.get_bridge_count]: [sum(degrees / 2)] *)
Definition get_bridge_count (self : GraphWrapper) (sample : pyval) : result Z :=
  active_edges <- get_active_edges self ;;
  g <- the_graph self ;;
  let degrees := map snd (degree_dict g active_edges) in
  halves <- dict_values_truediv degrees 2 ;;
  Ok (py_sum halves).

(** * Vocabulary of the properties *)

Section GraphVocabulary.
Context {K : Type} `{Hashable K}.
Implicit Types (g : nx.Graph K) (u v : K).

(** The entry [G._adj[u][v]], when there is one. *)
Definition edge_data g u v : option (option Z) := Dict.get (nx.adj g u) v.

(** Both directions of an edge hold the same data. *)
Definition sym g : Prop := forall x y, edge_data g x y = edge_data g y x.

(** Every neighbour is a node. *)
Definition closed g : Prop := forall x y, nx.has_edge g x y = true -> In y (nx.nodes g).

Section AddAll.
Variables (A : Type) (fu : A -> option Z -> option Z) (pu pv : A -> K).

(** A batch of [add_edge] calls, one per item of [l]. *)
Definition add_all g (l : list A) : nx.Graph K :=
  fold_left (fun acc a => nx.add_edge (fu a) acc (pu a) (pv a)) l g.

(** The item [a] is the edge between [x] and [y]. *)
Definition joins (a : A) x y : Prop := (x = pu a /\ y = pv a) \/ (x = pv a /\ y = pu a).

End AddAll.

Section Build.
Variables (X V : Type) (key : X -> K) (val : X -> option V).

(** [for x in l: if val(x) is there: d[key(x)] = val(x)] *)
Definition build (l : list X) (d : Dict.t K V) : Dict.t K V :=
  fold_left (fun acc x => match val x with
                          | Some v => Dict.set acc (key x) v
                          | None => acc
                          end) l d.

End Build.

(** The first half of [G.copy()]: the nodes with their attributes, no
    edge yet. *)
Definition copy_base g : nx.Graph K :=
  build fst (fun nd : K * nx.ndata K => Some (nx.mk_ndata (nx.n_type (snd nd)) [])) g [].

(** No key twice. *)
Fixpoint distinct (l : list K) : bool :=
  match l with
  | [] => true
  | x :: r => negb (existsb (key_eqb x) r) && distinct r
  end.

(** A well-formed simple graph: distinct node keys, no self-loop, every
    neighbour a node, every edge seen from both ends. *)
Definition is_simple g : bool :=
  distinct (nx.nodes g) &&
  forallb (fun u =>
             forallb (fun v => negb (key_eqb u v) && nx.has_node g v && nx.has_edge g v u)
                     (Dict.keys (nx.adj g u)))
          (nx.nodes g).

(** The pairs [nx.complement] joins: distinct nodes that [g] leaves
    apart. *)
Definition complement_pairs g : list (K * K) :=
  flat_map (fun n =>
    map (fun n2 => (n, n2))
        (filter (fun n2 => negb (nx.has_edge g n n2) && negb (key_eqb n n2)) (nx.nodes g)))
    (nx.nodes g).

End GraphVocabulary.

(** The line-graph nodes met at [u]: its incident edges, sorted. *)
Definition incident (G : nx.Graph node) (u : node) : list EdgeId :=
  map (fun x => sorted_node (fst x) (snd x)) (nx.edges_at G u).

(** The observed graph once every potential edge is present and typed:
    the copy, its edges typed 1, the edges of its complement added with
    type 0. *)
Definition typed_graph (gr : nx.Graph node) : nx.Graph node :=
  let graph := nx.copy gr in
  nx.add_edges_from (nx.with_type 0) (nx.set_edge_attributes graph 1)
                    (nx.edges (nx.complement graph)).

(** The line graph the constructor stores for an observed graph. *)
Definition index_of_graph (gr : nx.Graph node) : nx.Graph EdgeId :=
  nx.set_node_attributes (line_graph (typed_graph gr))
                         (sort_keys (nx.get_edge_attributes (typed_graph gr))).

(** [e] is one of the edge identifiers of the index. *)
Definition present (self : GraphWrapper) (e : EdgeId) : Prop :=
  exists elements, get_elements self = Ok elements /\ In e elements.

(** [e] is an element whose type is 1. *)
Definition active (self : GraphWrapper) (e : EdgeId) : bool :=
  match get_edge_type self e with
  | Ok t => t =? 1
  | Raise _ => false
  end.

(** A run of calls to [set_particle], whatever their outcome. *)
Definition apply_calls (self : GraphWrapper) (calls : list (EdgeId * pyval)) : GraphWrapper :=
  fold_left (fun w c => fst (set_particle w (fst c) (snd c))) calls self.

(** The wrapper a constructor call leaves, [_graph = None] when it raised. *)
Definition constructed (r : result GraphWrapper) : GraphWrapper :=
  match r with
  | Ok w => w
  | Raise _ => {| _graph := None |}
  end.

(** The observed graph of the bridge scenario: the path 0 - 1 - 2. *)
Definition path3 : nx_object := {| cls := Graph; content := path_on (range 3) |}.

(** The nodes of the line graph of the complete graph on 3 nodes. *)
Definition triangle : list EdgeId := [(0, 1); (0, 2); (1, 2)].

(** Every node has a type and every neighbour is a node. *)
Definition well_typed (g : nx.Graph EdgeId) : Prop :=
  closed g /\ forall e, In e (nx.nodes g) -> exists t, nx.node_type g e = Some t.

(** The wrappers that hold an index: built by the constructor, from a
    node count or from an observed graph, then changed by [set_particle]. *)
Inductive index : GraphWrapper -> Prop :=
| index_complete (dim : Z) (w : GraphWrapper) :
    __init__ (Some dim) None = Ok w -> index w
| index_graph (dim : Z) (gr : nx_object) (w : GraphWrapper) :
    __init__ (Some dim) (Some gr) = Ok w -> index w
| index_set (w : GraphWrapper) (id : EdgeId) (new_val : pyval) :
    index w -> index (fst (set_particle w id new_val)).

(** What the [try] of [set_edge_type] makes of an exception of [int]: a
    [ValueError] is caught and becomes a [TypeError], any other goes
    through. *)
Definition reraised (x : exn) : exn :=
  match x with
  | ValueError => TypeError
  | _ => x
  end.

(** [e] is an element whose type is 0. *)
Definition inactive (self : GraphWrapper) (e : EdgeId) : bool :=
  match get_edge_type self e with
  | Ok t => t =? 0
  | Raise _ => false
  end.

(** The two edges have an endpoint in common. *)
Definition shares_endpoint (a b : EdgeId) : Prop :=
  fst a = fst b \/ fst a = snd b \/ snd a = fst b \/ snd a = snd b.

(** No node lists a neighbour twice. *)
Definition adj_distinct {K : Type} `{Hashable K} (g : nx.Graph K) : Prop :=
  forall u, NoDup (Dict.keys (nx.adj g u)).

(** What holds of the graph of every index: distinct nodes, each with a
    type, neighbours that are nodes, listed once, and never the node
    itself. *)
Definition index_graph_ok (g : nx.Graph EdgeId) : Prop :=
  well_typed g /\ NoDup (nx.nodes g) /\ adj_distinct g /\
  (forall e, nx.has_edge g e e = false) /\
  (forall a b, nx.has_edge g a b = true -> nx.has_edge g b a = true).

(** The elements [p] holds of, as a number. *)
Definition count_of (p : EdgeId -> bool) (l : list EdgeId) : Z :=
  Z.of_nat (List.length (filter p l)).

(** 1 for [true], 0 for [false]. *)
Definition b2z (b : bool) : Z := if b then 1 else 0.

(** A call whose value, when [int] accepts it, is one of the two types. *)
Definition binary_call (c : EdgeId * pyval) : Prop :=
  forall z, py_int (snd c) = Ok z -> z = 0 \/ z = 1.

(** What the constructor is handed: no graph, or a simple one. *)
Definition simple_input (gr : option nx_object) : Prop :=
  match gr with
  | None => True
  | Some o => is_simple (content o) = true
  end.

(** The number of nodes of the observed graph: the count handed over when
    there is no graph, otherwise the graph's own. *)
Definition node_count (dim : Z) (gr : option nx_object) : Z :=
  match gr with
  | None => dim
  | Some o => nx.number_of_nodes (content o)
  end.

(** [G] joins every two distinct members of [N], and nothing else. *)
Definition complete_over (G : nx.Graph node) (N : list node) : Prop :=
  forall x y, nx.has_edge G x y = true <-> x <> y /\ In x N /\ In y N.

(** Every node is typed 0 or 1. *)
Definition binary_graph (g : nx.Graph EdgeId) : Prop :=
  forall e, In e (nx.nodes g) -> nx.node_type g e = Some 0 \/ nx.node_type g e = Some 1.

(** * Properties of the dictionaries *)

Lemma key_eqb_refl (K : Type) `{Hashable K} (x : K) : key_eqb x x = true.
Proof. destruct (key_eqb_spec x x); congruence. Qed.

Lemma key_eqb_neq (K : Type) `{Hashable K} (x y : K) : x <> y -> key_eqb x y = false.
Proof. destruct (key_eqb_spec x y); congruence. Qed.

Lemma key_eqb_eq (K : Type) `{Hashable K} (x y : K) : key_eqb x y = true -> x = y.
Proof. destruct (key_eqb_spec x y); congruence. Qed.

Section DictLemmas.
Context {K V : Type} `{Hashable K}.
Implicit Types (d : Dict.t K V) (k : K) (v : V).

Lemma dict_get_set_eq d k v : Dict.get (Dict.set d k v) k = Some v.
Proof.
  induction d as [|[k' v'] r IH]; simpl.
  - now rewrite key_eqb_refl.
  - destruct (key_eqb k k') eqn:E; simpl; rewrite E; auto.
Qed.

Lemma dict_get_set_neq d k k' v : k <> k' -> Dict.get (Dict.set d k v) k' = Dict.get d k'.
Proof.
  intros N; induction d as [|[k0 v0] r IH]; simpl.
  - rewrite key_eqb_neq; auto.
  - destruct (key_eqb_spec k k0) as [->|E]; simpl.
    + rewrite (key_eqb_neq (x:=k') (y:=k0)); congruence.
    + now rewrite IH.
Qed.

Lemma dict_get_None d k : Dict.get d k = None <-> ~ In k (Dict.keys d).
Proof.
  induction d as [|[k' v'] r IH]; simpl.
  - tauto.
  - destruct (key_eqb_spec k k') as [->|E].
    + split; [discriminate | tauto].
    + rewrite IH. intuition congruence.
Qed.

Lemma dict_mem_In d k : Dict.mem d k = true <-> In k (Dict.keys d).
Proof.
  unfold Dict.mem. destruct (Dict.get d k) eqn:E.
  - split; auto. intros _.
    destruct (in_dec (fun x y => reflect_dec _ _ (key_eqb_spec x y)) k (Dict.keys d)) as [I|I]; auto.
    apply dict_get_None in I. congruence.
  - apply dict_get_None in E. split; [discriminate | tauto].
Qed.

Lemma dict_get_Some_In d k v : Dict.get d k = Some v -> In (k, v) d.
Proof.
  induction d as [|[k' v'] r IH]; simpl; [discriminate|].
  destruct (key_eqb_spec k k') as [->|E].
  - intros [= ->]; auto.
  - auto.
Qed.

Lemma dict_In_get d k v : NoDup (Dict.keys d) -> In (k, v) d -> Dict.get d k = Some v.
Proof.
  induction d as [|[k' v'] r IH]; simpl; [tauto|].
  intros ND [[= -> ->]|I].
  - now rewrite key_eqb_refl.
  - inversion ND; subst.
    destruct (key_eqb_spec k k') as [->|E]; auto.
    exfalso. apply H2. change k' with (fst (k', v)). now apply in_map.
Qed.

Lemma dict_keys_set_mem d k v : In k (Dict.keys d) -> Dict.keys (Dict.set d k v) = Dict.keys d.
Proof.
  induction d as [|[k' v'] r IH]; simpl; [tauto|].
  destruct (key_eqb_spec k k') as [->|E]; simpl; auto.
  intros [E'|I]; [congruence|]. now rewrite IH.
Qed.

Lemma dict_keys_set_new d k v : ~ In k (Dict.keys d) -> Dict.keys (Dict.set d k v) = Dict.keys d ++ [k].
Proof.
  induction d as [|[k' v'] r IH]; simpl; auto.
  destruct (key_eqb_spec k k') as [->|E]; simpl; [tauto|].
  intros N. rewrite IH; tauto.
Qed.

Lemma dict_In_keys_set d k v x : In x (Dict.keys (Dict.set d k v)) <-> x = k \/ In x (Dict.keys d).
Proof.
  destruct (in_dec (fun x y => reflect_dec _ _ (key_eqb_spec x y)) k (Dict.keys d)) as [I|I].
  - rewrite dict_keys_set_mem by auto. intuition congruence.
  - rewrite dict_keys_set_new by auto. rewrite in_app_iff; simpl. intuition.
Qed.

Lemma dict_NoDup_keys_set d k v : NoDup (Dict.keys d) -> NoDup (Dict.keys (Dict.set d k v)).
Proof.
  intros ND.
  destruct (in_dec (fun x y => reflect_dec _ _ (key_eqb_spec x y)) k (Dict.keys d)) as [I|I].
  - now rewrite dict_keys_set_mem.
  - rewrite dict_keys_set_new by auto.
    apply NoDup_app; auto.
    + repeat constructor; simpl; tauto.
    + intros x Hx [<-|[]]. tauto.
Qed.

End DictLemmas.

(** * Properties of the graph operations *)

Section GraphFacts.
Context {K : Type} `{Hashable K}.
Implicit Types (g : nx.Graph K) (u v x y n : K).

Lemma key_dec : forall x y : K, {x = y} + {x <> y}.
Proof. intros x y. destruct (key_eqb_spec x y); auto. Qed.

Lemma get_Some_keys (V : Type) (d : Dict.t K V) k a : Dict.get d k = Some a -> In k (Dict.keys d).
Proof.
  intros E. destruct (in_dec key_dec k (Dict.keys d)) as [I|I]; auto.
  apply dict_get_None in I. congruence.
Qed.

Lemma In_keys_get (V : Type) (d : Dict.t K V) k : In k (Dict.keys d) -> exists a, Dict.get d k = Some a.
Proof.
  intros I. destruct (Dict.get d k) eqn:E; eauto.
  apply dict_get_None in E. tauto.
Qed.

Lemma has_edge_data g u v : nx.has_edge g u v = true <-> edge_data g u v <> None.
Proof.
  unfold nx.has_edge, Dict.mem, edge_data.
  destruct (Dict.get (nx.adj g u) v); split; congruence.
Qed.

Lemma has_edge_false g u v : nx.has_edge g u v = false <-> edge_data g u v = None.
Proof.
  unfold nx.has_edge, Dict.mem, edge_data.
  destruct (Dict.get (nx.adj g u) v); split; congruence.
Qed.

Lemma has_edge_In g u v : nx.has_edge g u v = true <-> In v (Dict.keys (nx.adj g u)).
Proof. apply dict_mem_In. Qed.

Lemma has_node_In g n : nx.has_node g n = true <-> In n (nx.nodes g).
Proof. apply dict_mem_In. Qed.

Lemma edge_type_data g u v :
  nx.edge_type g u v = match edge_data g u v with Some a => a | None => None end.
Proof. reflexivity. Qed.

Lemma adj_stranger g u : ~ In u (nx.nodes g) -> nx.adj g u = [].
Proof.
  intros N. unfold nx.adj. apply dict_get_None in N. now rewrite N.
Qed.

Lemma has_edge_node g u v : nx.has_edge g u v = true -> In u (nx.nodes g).
Proof.
  intros E. destruct (in_dec key_dec u (nx.nodes g)) as [I|I]; auto.
  unfold nx.has_edge in E. rewrite adj_stranger in E by auto. discriminate.
Qed.

(** *** [add_node] *)

Lemma adj_add_node g n x : nx.adj (nx.add_node g n) x = nx.adj g x.
Proof.
  unfold nx.add_node. destruct (Dict.mem g n) eqn:M; auto.
  unfold nx.adj. destruct (key_eqb_spec n x) as [->|N].
  - rewrite dict_get_set_eq. unfold Dict.mem in M.
    destruct (Dict.get g x); [discriminate | reflexivity].
  - now rewrite dict_get_set_neq.
Qed.

Lemma node_type_add_node g n x : nx.node_type (nx.add_node g n) x = nx.node_type g x.
Proof.
  unfold nx.add_node. destruct (Dict.mem g n) eqn:M; auto.
  unfold nx.node_type. destruct (key_eqb_spec n x) as [->|N].
  - rewrite dict_get_set_eq. unfold Dict.mem in M.
    destruct (Dict.get g x); [discriminate | reflexivity].
  - now rewrite dict_get_set_neq.
Qed.

Lemma In_nodes_add_node g n x : In x (nx.nodes (nx.add_node g n)) <-> x = n \/ In x (nx.nodes g).
Proof.
  unfold nx.add_node, nx.nodes. destruct (Dict.mem g n) eqn:M.
  - apply dict_mem_In in M. intuition congruence.
  - apply dict_In_keys_set.
Qed.

Lemma NoDup_nodes_add_node g n : NoDup (nx.nodes g) -> NoDup (nx.nodes (nx.add_node g n)).
Proof.
  unfold nx.add_node, nx.nodes. destruct (Dict.mem g n); auto.
  apply dict_NoDup_keys_set.
Qed.

(** *** [set_adj] *)

Lemma nodes_set_adj g u v a : nx.nodes (nx.set_adj g u v a) = nx.nodes g.
Proof.
  unfold nx.set_adj, nx.nodes. destruct (Dict.get g u) eqn:E; auto.
  apply dict_keys_set_mem. eapply get_Some_keys; eauto.
Qed.

Lemma adj_set_adj g u v a x :
  In u (nx.nodes g) ->
  nx.adj (nx.set_adj g u v a) x =
  if key_eqb x u then Dict.set (nx.adj g u) v a else nx.adj g x.
Proof.
  intros I. apply In_keys_get in I. destruct I as [d E].
  unfold nx.set_adj, nx.adj. rewrite E.
  destruct (key_eqb_spec x u) as [->|N].
  - now rewrite dict_get_set_eq.
  - rewrite dict_get_set_neq; auto.
Qed.

Lemma node_type_set_adj g u v a x : nx.node_type (nx.set_adj g u v a) x = nx.node_type g x.
Proof.
  unfold nx.set_adj, nx.node_type. destruct (Dict.get g u) eqn:E; auto.
  destruct (key_eqb_spec u x) as [->|N].
  - rewrite dict_get_set_eq, E. reflexivity.
  - now rewrite dict_get_set_neq.
Qed.

(** *** [add_edge] *)

Lemma In_nodes_add_edge upd g u v x :
  In x (nx.nodes (nx.add_edge upd g u v)) <-> x = u \/ x = v \/ In x (nx.nodes g).
Proof.
  unfold nx.add_edge. rewrite !nodes_set_adj, !In_nodes_add_node. tauto.
Qed.

Lemma NoDup_nodes_add_edge upd g u v :
  NoDup (nx.nodes g) -> NoDup (nx.nodes (nx.add_edge upd g u v)).
Proof.
  intros ND. unfold nx.add_edge. rewrite !nodes_set_adj.
  now apply NoDup_nodes_add_node, NoDup_nodes_add_node.
Qed.

Lemma node_type_add_edge upd g u v x :
  nx.node_type (nx.add_edge upd g u v) x = nx.node_type g x.
Proof.
  unfold nx.add_edge. now rewrite !node_type_set_adj, !node_type_add_node.
Qed.

Lemma edge_data_add_edge upd g u v x y :
  edge_data (nx.add_edge upd g u v) x y =
  if (key_eqb x u && key_eqb y v) || (key_eqb x v && key_eqb y u)
  then Some (upd (nx.edge_type g u v))
  else edge_data g x y.
Proof.
  unfold nx.add_edge.
  set (g1 := nx.add_node (nx.add_node g u) v).
  assert (Iu : In u (nx.nodes g1)).
  { unfold g1. rewrite !In_nodes_add_node. tauto. }
  assert (Iv : In v (nx.nodes g1)).
  { unfold g1. rewrite !In_nodes_add_node. tauto. }
  assert (A1 : forall z, nx.adj g1 z = nx.adj g z).
  { intros z. unfold g1. now rewrite !adj_add_node. }
  assert (T1 : nx.edge_type g1 u v = nx.edge_type g u v).
  { unfold nx.edge_type. now rewrite A1. }
  rewrite T1. set (dd := upd (nx.edge_type g u v)).
  unfold edge_data.
  rewrite adj_set_adj by (rewrite nodes_set_adj; auto).
  rewrite !adj_set_adj by auto. rewrite !A1.
  destruct (key_eqb_spec x v) as [->|Nxv];
    destruct (key_eqb_spec y u) as [->|Nyu];
    try destruct (key_eqb_spec v u) as [->|Nvu];
    try destruct (key_eqb_spec x u) as [->|Nxu];
    try destruct (key_eqb_spec u v) as [->|Nuv];
    try destruct (key_eqb_spec y v) as [->|Nyv];
    simpl; try congruence;
    rewrite ?key_eqb_refl; simpl;
    repeat first [ rewrite dict_get_set_eq | rewrite dict_get_set_neq by congruence ];
    rewrite ?(key_eqb_neq (x:=y) (y:=u)) by congruence;
    try reflexivity; try congruence.
Qed.

(** *** Symmetry and closure *)

Lemma sym_empty : sym (@nx.empty K).
Proof. intros x y. reflexivity. Qed.

Lemma closed_empty : closed (@nx.empty K).
Proof. intros x y. discriminate. Qed.

Lemma sym_has_edge g x y : sym g -> nx.has_edge g x y = nx.has_edge g y x.
Proof.
  intros S. unfold nx.has_edge, Dict.mem. fold (edge_data g x y) (edge_data g y x).
  now rewrite (S x y).
Qed.

Lemma sym_edge_type g x y : sym g -> nx.edge_type g x y = nx.edge_type g y x.
Proof. intros S. rewrite !edge_type_data. now rewrite (S x y). Qed.

Lemma edge_data_add_node g n x y : edge_data (nx.add_node g n) x y = edge_data g x y.
Proof. unfold edge_data. now rewrite adj_add_node. Qed.

Lemma sym_add_node g n : sym g -> sym (nx.add_node g n).
Proof. intros S x y. rewrite !edge_data_add_node. apply S. Qed.

Lemma closed_add_node g n : closed g -> closed (nx.add_node g n).
Proof.
  intros C x y E. apply In_nodes_add_node. right. apply (C x y).
  rewrite has_edge_data in *. now rewrite edge_data_add_node in E.
Qed.

Lemma sym_add_edge upd g u v : sym g -> sym (nx.add_edge upd g u v).
Proof.
  intros S x y. rewrite !edge_data_add_edge, (S x y).
  destruct (key_eqb x u), (key_eqb y v), (key_eqb x v), (key_eqb y u); reflexivity.
Qed.

Lemma has_edge_add_edge upd g u v x y :
  nx.has_edge (nx.add_edge upd g u v) x y = true <->
  nx.has_edge g x y = true \/ (x = u /\ y = v) \/ (x = v /\ y = u).
Proof.
  rewrite !has_edge_data, edge_data_add_edge.
  destruct (key_eqb_spec x u), (key_eqb_spec y v), (key_eqb_spec x v), (key_eqb_spec y u);
    simpl; intuition congruence.
Qed.

Lemma closed_add_edge upd g u v : closed g -> closed (nx.add_edge upd g u v).
Proof.
  intros C x y E. apply has_edge_add_edge in E. apply In_nodes_add_edge.
  destruct E as [E|[[-> ->]|[-> ->]]]; auto.
  right; right. eapply C; eauto.
Qed.

(** *** Adding a batch of edges *)

Section AddAll.
Variables (A : Type) (fu : A -> option Z -> option Z) (pu pv : A -> K).

Lemma In_nodes_add_all l g x :
  In x (nx.nodes (add_all fu pu pv g l)) <->
  In x (nx.nodes g) \/ exists a, In a l /\ (x = pu a \/ x = pv a).
Proof.
  revert g; induction l as [|a l IH]; intros g; simpl.
  - split; auto. intros [I|[a [[] _]]]; auto.
  - rewrite IH, In_nodes_add_edge. split.
    + intros [[->|[->|I]]|[b [Ib E]]]; eauto 6.
    + intros [I|[b [[<-|Ib] E]]]; eauto 6. tauto.
Qed.

Lemma NoDup_nodes_add_all l g : NoDup (nx.nodes g) -> NoDup (nx.nodes (add_all fu pu pv g l)).
Proof.
  revert g; induction l as [|a l IH]; intros g ND; simpl; auto.
  apply IH. now apply NoDup_nodes_add_edge.
Qed.

Lemma node_type_add_all l g x : nx.node_type (add_all fu pu pv g l) x = nx.node_type g x.
Proof.
  revert g; induction l as [|a l IH]; intros g; simpl; auto.
  now rewrite IH, node_type_add_edge.
Qed.

Lemma sym_add_all l g : sym g -> sym (add_all fu pu pv g l).
Proof.
  revert g; induction l as [|a l IH]; intros g S; simpl; auto.
  apply IH. now apply sym_add_edge.
Qed.

Lemma closed_add_all l g : closed g -> closed (add_all fu pu pv g l).
Proof.
  revert g; induction l as [|a l IH]; intros g C; simpl; auto.
  apply IH. now apply closed_add_edge.
Qed.

Lemma has_edge_add_all l g x y :
  nx.has_edge (add_all fu pu pv g l) x y = true <->
  nx.has_edge g x y = true \/ exists a, In a l /\ joins pu pv a x y.
Proof.
  revert g; induction l as [|a l IH]; intros g; simpl.
  - split; auto. intros [I|[a [[] _]]]; auto.
  - rewrite IH, has_edge_add_edge. unfold joins. split.
    + intros [[E|E]|[b [Ib E]]]; eauto 6.
    + intros [E|[b [[<-|Ib] E]]]; eauto 6.
Qed.

Lemma edge_data_add_all_other l g x y :
  (forall a, In a l -> ~ joins pu pv a x y) ->
  edge_data (add_all fu pu pv g l) x y = edge_data g x y.
Proof.
  revert g; induction l as [|a l IH]; intros g N; simpl; auto.
  rewrite IH by (intros b Ib; apply N; now right).
  rewrite edge_data_add_edge.
  assert (Na := N a (or_introl eq_refl)). unfold joins in Na.
  destruct (key_eqb_spec x (pu a)), (key_eqb_spec y (pv a)),
           (key_eqb_spec x (pv a)), (key_eqb_spec y (pu a)); simpl; tauto.
Qed.

Lemma joins_dec (l : list A) x y :
  (exists a, In a l /\ joins pu pv a x y) \/ (forall a, In a l -> ~ joins pu pv a x y).
Proof.
  induction l as [|a l [[b [Ib J]]|N]].
  - right. intros a [].
  - left. exists b. split; [now right | auto].
  - assert (D : joins pu pv a x y \/ ~ joins pu pv a x y).
    { unfold joins.
      destruct (key_dec x (pu a)), (key_dec y (pv a)), (key_dec x (pv a)), (key_dec y (pu a));
        tauto. }
    destruct D as [J|J].
    + left. exists a. split; [now left | auto].
    + right. intros b [<-|Ib]; auto.
Qed.

Lemma edge_data_add_all_typed l g x y t :
  (forall a, fu a = nx.with_type t) ->
  (exists a, In a l /\ joins pu pv a x y) ->
  edge_data (add_all fu pu pv g l) x y = Some (Some t).
Proof.
  intros F. revert g; induction l as [|a l IH]; intros g [b [Ib J]]; simpl.
  - destruct Ib.
  - destruct (joins_dec l x y) as [[c [Ic Jc]]|N].
    + apply IH; eauto.
    + rewrite edge_data_add_all_other by auto.
      destruct Ib as [<-|Ib]; [|exfalso; eapply N; eauto].
      rewrite edge_data_add_edge, F. unfold joins in J.
      destruct (key_eqb_spec x (pu a)), (key_eqb_spec y (pv a)),
               (key_eqb_spec x (pv a)), (key_eqb_spec y (pu a)); simpl;
        try reflexivity; exfalso; intuition congruence.
Qed.

End AddAll.

End GraphFacts.

(** *** Dictionaries built in a loop *)

Section DictFacts.
Context {K : Type} `{Hashable K}.

Lemma get_map_values (V W : Type) (h : V -> W) (d : Dict.t K V) k :
  Dict.get (map (fun kv => (fst kv, h (snd kv))) d) k = option_map h (Dict.get d k).
Proof.
  induction d as [|[k' v'] r IH]; simpl; auto.
  destruct (key_eqb k k'); auto.
Qed.

Lemma keys_map_values (V W : Type) (h : K * V -> W) (d : Dict.t K V) :
  Dict.keys (map (fun kv => (fst kv, h kv)) d) = Dict.keys d.
Proof.
  unfold Dict.keys. rewrite map_map. reflexivity.
Qed.

Variables (X V : Type) (key : X -> K) (val : X -> option V).

Lemma NoDup_keys_build l d : NoDup (Dict.keys d) -> NoDup (Dict.keys (build key val l d)).
Proof.
  revert d; induction l as [|x l IH]; intros d ND; simpl; auto.
  apply IH. destruct (val x); auto. now apply dict_NoDup_keys_set.
Qed.

Lemma In_set_inv (d : Dict.t K V) k v k' v' :
  In (k', v') (Dict.set d k v) -> In (k', v') d \/ (k' = k /\ v' = v).
Proof.
  induction d as [|[k0 v0] r IH]; simpl.
  - intros [[= <- <-]|[]]; auto.
  - destruct (key_eqb_spec k k0) as [->|N]; simpl.
    + intros [[= <- <-]|I]; auto.
    + intros [E|I]; auto. destruct (IH I); auto.
Qed.

Lemma In_build_inv l d k v :
  In (k, v) (build key val l d) ->
  In (k, v) d \/ exists x, In x l /\ key x = k /\ val x = Some v.
Proof.
  revert d; induction l as [|x l IH]; intros d; simpl; auto.
  intros I. apply IH in I. destruct I as [I|[y [Iy E]]].
  - destruct (val x) as [w|] eqn:E; auto.
    apply In_set_inv in I. destruct I as [I|[-> ->]]; auto.
    right. exists x. auto.
  - right. exists y. tauto.
Qed.

Lemma In_keys_build l d k :
  In k (Dict.keys (build key val l d)) <->
  In k (Dict.keys d) \/ exists x, In x l /\ key x = k /\ val x <> None.
Proof.
  revert d; induction l as [|x l IH]; intros d; simpl.
  - split; auto. intros [I|[x [[] _]]]; auto.
  - rewrite IH. destruct (val x) as [w|] eqn:E.
    + rewrite dict_In_keys_set. split.
      * intros [[->|I]|[y [Iy Ey]]]; eauto.
        right. exists x. rewrite E. repeat split; auto. discriminate.
      * intros [I|[y [[<-|Iy] [Ey Ev]]]]; eauto.
    + split.
      * intros [I|[y [Iy Ey]]]; eauto.
      * intros [I|[y [[<-|Iy] [Ey Ev]]]]; eauto. congruence.
Qed.

(** Last write wins; when every write under [k] stores [v], so does the
    result. *)
Lemma get_build l d k v :
  (forall x w, In x l -> key x = k -> val x = Some w -> w = v) ->
  (exists x, In x l /\ key x = k /\ val x = Some v) \/ Dict.get d k = Some v ->
  Dict.get (build key val l d) k = Some v.
Proof.
  revert d; induction l as [|x l IH]; intros d U E; simpl.
  - destruct E as [[x [[] _]]|E]; auto.
  - apply IH.
    + intros y w Iy. apply U. now right.
    + destruct (val x) as [w|] eqn:Ev.
      * destruct (key_eqb_spec (key x) k) as [Ek|Nk].
        -- right. rewrite Ek, dict_get_set_eq. f_equal.
           eapply U; eauto. now left.
        -- rewrite dict_get_set_neq by auto.
           destruct E as [[y [[<-|Iy] [Ey Ew]]]|E]; eauto. congruence.
      * destruct E as [[y [[<-|Iy] [Ey Ew]]]|E]; eauto. congruence.
Qed.

End DictFacts.

(** *** Edge views, attributes, copies and complements *)

Section GraphOps.
Context {K : Type} `{Hashable K}.
Implicit Types (g : nx.Graph K) (u v x y n : K).

Lemma existsb_key_In x (l : list K) : existsb (key_eqb x) l = true <-> In x l.
Proof.
  rewrite existsb_exists. split.
  - intros [y [I E]]. apply key_eqb_eq in E. now subst.
  - intros I. exists x. split; auto. apply key_eqb_refl.
Qed.

Lemma add_edges_from_add_all upd g es :
  nx.add_edges_from upd g es = add_all (fun _ : K * K => upd) fst snd g es.
Proof. reflexivity. Qed.

(** [G.edges()] *)

Lemma In_edges_from g seen ns x y :
  In (x, y) (nx.edges_from g seen ns) -> nx.has_edge g x y = true /\ In x ns.
Proof.
  revert seen; induction ns as [|n r IH]; intros seen; simpl; [tauto|].
  rewrite in_app_iff, in_map_iff. intros [[nbr [[= <- <-] I]]|I].
  - apply filter_In in I. destruct I as [I _]. split; auto.
    now apply has_edge_In.
  - apply IH in I. tauto.
Qed.

Lemma edges_from_complete g seen ns x y :
  nx.has_edge g x y = true -> nx.has_edge g y x = true ->
  In x ns -> In y ns -> ~ In x seen -> ~ In y seen ->
  In (x, y) (nx.edges_from g seen ns) \/ In (y, x) (nx.edges_from g seen ns).
Proof.
  intros Exy Eyx. revert seen; induction ns as [|n r IH]; intros seen Ix Iy Sx Sy; simpl.
  - destruct Ix.
  - rewrite !in_app_iff, !in_map_iff.
    assert (F : forall a b, nx.has_edge g a b = true -> ~ In b seen ->
                In b (filter (fun nbr => negb (existsb (key_eqb nbr) seen))
                             (Dict.keys (nx.adj g a)))).
    { intros a b E S. apply filter_In. split; [now apply has_edge_In|].
      destruct (existsb (key_eqb b) seen) eqn:X; auto.
      apply existsb_key_In in X. tauto. }
    destruct (key_dec n x) as [->|Nx].
    + left. left. exists y. auto.
    + destruct (key_dec n y) as [->|Ny].
      * right. left. exists x. auto.
      * destruct Ix as [Ix|Ix]; [congruence|]. destruct Iy as [Iy|Iy]; [congruence|].
        destruct (IH (n :: seen)) as [I|I]; auto; simpl; intuition congruence.
Qed.

Lemma In_edges g x y : In (x, y) (nx.edges g) -> nx.has_edge g x y = true.
Proof. intros I. now apply In_edges_from in I. Qed.

Lemma edges_complete g x y :
  sym g -> closed g -> nx.has_edge g x y = true ->
  In (x, y) (nx.edges g) \/ In (y, x) (nx.edges g).
Proof.
  intros S C E. apply edges_from_complete; auto.
  - now rewrite <- (sym_has_edge x y S).
  - eapply has_edge_node; eauto.
  - eapply C; eauto.
Qed.

(** [nx.set_edge_attributes] *)

Lemma nodes_set_edge_attributes g t : nx.nodes (nx.set_edge_attributes g t) = nx.nodes g.
Proof.
  unfold nx.set_edge_attributes, nx.nodes, Dict.keys. rewrite map_map. reflexivity.
Qed.

Lemma edge_data_set_edge_attributes g t x y :
  edge_data (nx.set_edge_attributes g t) x y =
  option_map (fun _ => Some t) (edge_data g x y).
Proof.
  unfold edge_data, nx.adj, nx.set_edge_attributes.
  rewrite (get_map_values
             (fun d => nx.mk_ndata (nx.n_type d)
                         (map (fun va => (fst va, Some t)) (nx.n_adj d)))).
  destruct (Dict.get g x) as [d|]; simpl; auto.
  apply (get_map_values (fun _ : option Z => Some t)).
Qed.

Lemma sym_set_edge_attributes g t : sym g -> sym (nx.set_edge_attributes g t).
Proof. intros S x y. rewrite !edge_data_set_edge_attributes. now rewrite (S x y). Qed.

Lemma has_edge_set_edge_attributes g t x y :
  nx.has_edge (nx.set_edge_attributes g t) x y = nx.has_edge g x y.
Proof.
  unfold nx.has_edge, Dict.mem.
  fold (edge_data (nx.set_edge_attributes g t) x y) (edge_data g x y).
  rewrite edge_data_set_edge_attributes. now destruct (edge_data g x y).
Qed.

Lemma closed_set_edge_attributes g t : closed g -> closed (nx.set_edge_attributes g t).
Proof.
  intros C x y. rewrite has_edge_set_edge_attributes, nodes_set_edge_attributes. apply C.
Qed.

(** [G.add_nodes_from] *)

Lemma In_nodes_add_nodes_from ns g x :
  In x (nx.nodes (nx.add_nodes_from g ns)) <-> In x (nx.nodes g) \/ In x ns.
Proof.
  unfold nx.add_nodes_from. revert g; induction ns as [|n r IH]; intros g; simpl.
  - tauto.
  - rewrite IH, In_nodes_add_node. intuition.
Qed.

Lemma edge_data_add_nodes_from ns g x y :
  edge_data (nx.add_nodes_from g ns) x y = edge_data g x y.
Proof.
  unfold nx.add_nodes_from. revert g; induction ns as [|n r IH]; intros g; simpl; auto.
  now rewrite IH, edge_data_add_node.
Qed.

Lemma NoDup_nodes_add_nodes_from ns g :
  NoDup (nx.nodes g) -> NoDup (nx.nodes (nx.add_nodes_from g ns)).
Proof.
  unfold nx.add_nodes_from. revert g; induction ns as [|n r IH]; intros g ND; simpl; auto.
  apply IH. now apply NoDup_nodes_add_node.
Qed.

Lemma sym_add_nodes_from ns g : sym g -> sym (nx.add_nodes_from g ns).
Proof. intros S x y. rewrite !edge_data_add_nodes_from. apply S. Qed.

Lemma closed_add_nodes_from ns g : closed g -> closed (nx.add_nodes_from g ns).
Proof.
  intros C x y E. apply In_nodes_add_nodes_from. left. apply (C x y).
  rewrite has_edge_data in *. now rewrite edge_data_add_nodes_from in E.
Qed.

(** [G.copy()] *)

Lemma copy_add_all g :
  nx.copy g =
  add_all (fun e : K * K * option Z => nx.merge_data (snd e))
          (fun e => fst (fst e)) (fun e => snd (fst e))
          (copy_base g) (nx.adjacency_items g).
Proof. reflexivity. Qed.

Lemma In_nodes_copy_base g x : In x (nx.nodes (copy_base g)) <-> In x (nx.nodes g).
Proof.
  unfold copy_base, nx.nodes. rewrite In_keys_build. simpl. split.
  - intros [[]|[nd [I [<- _]]]]. now apply in_map.
  - intros I. right. unfold Dict.keys in I. apply in_map_iff in I.
    destruct I as [nd [<- I]]. exists nd. repeat split; auto. discriminate.
Qed.

Lemma edge_data_copy_base g x y : edge_data (copy_base g) x y = None.
Proof.
  unfold edge_data, nx.adj. destruct (Dict.get (copy_base g) x) as [d|] eqn:E; auto.
  apply dict_get_Some_In, In_build_inv in E.
  destruct E as [[]|[nd [_ [_ [= <-]]]]]. reflexivity.
Qed.

Lemma sym_copy g : sym (nx.copy g).
Proof.
  rewrite copy_add_all. apply sym_add_all.
  intros x y. now rewrite !edge_data_copy_base.
Qed.

Lemma closed_copy g : closed (nx.copy g).
Proof.
  rewrite copy_add_all. apply closed_add_all.
  intros x y E. apply has_edge_data in E. now rewrite edge_data_copy_base in E.
Qed.

Lemma NoDup_nodes_copy g : NoDup (nx.nodes (nx.copy g)).
Proof.
  rewrite copy_add_all. apply NoDup_nodes_add_all.
  apply NoDup_keys_build. constructor.
Qed.

Lemma In_adjacency_items g u v d :
  In (u, v, d) (nx.adjacency_items g) <->
  exists nd, In (u, nd) g /\ In (v, d) (nx.n_adj nd).
Proof.
  unfold nx.adjacency_items. rewrite in_flat_map. split.
  - intros [[u' nd] [I J]]. apply in_map_iff in J. destruct J as [[v' d'] [[= <- <- <-] J]].
    simpl in *. eauto.
  - intros [nd [I J]]. exists (u, nd). split; auto.
    apply in_map_iff. exists (v, d). auto.
Qed.

Lemma distinct_NoDup (l : list K) : distinct l = true -> NoDup l.
Proof.
  induction l as [|x r IH]; simpl; [constructor|].
  rewrite andb_true_iff, negb_true_iff. intros [N D]. constructor; auto.
  intros I. apply existsb_key_In in I. congruence.
Qed.

Lemma is_simple_NoDup g : is_simple g = true -> NoDup (nx.nodes g).
Proof.
  unfold is_simple. rewrite andb_true_iff. intros [D _]. now apply distinct_NoDup.
Qed.

Lemma is_simple_edge g u v :
  is_simple g = true -> nx.has_edge g u v = true ->
  u <> v /\ In v (nx.nodes g) /\ nx.has_edge g v u = true.
Proof.
  unfold is_simple. rewrite andb_true_iff. intros [_ F] E.
  rewrite forallb_forall in F.
  specialize (F u (has_edge_node _ _ _ E)). rewrite forallb_forall in F.
  apply has_edge_In in E. specialize (F v E).
  rewrite !andb_true_iff, negb_true_iff in F. destruct F as [[N I] S].
  repeat split; auto.
  - intros ->. now rewrite key_eqb_refl in N.
  - now apply has_node_In.
Qed.

Lemma has_edge_adjacency_items g u v :
  NoDup (nx.nodes g) ->
  nx.has_edge g u v = true <-> exists d, In (u, v, d) (nx.adjacency_items g).
Proof.
  intros ND. split.
  - intros E. apply has_edge_In in E. unfold nx.adj in E.
    destruct (Dict.get g u) as [nd|] eqn:G; [|destruct E].
    apply In_keys_get in E. destruct E as [d E].
    exists d. apply In_adjacency_items. exists nd. split; now apply dict_get_Some_In.
  - intros [d I]. apply In_adjacency_items in I. destruct I as [nd [I J]].
    apply has_edge_In. unfold nx.adj. rewrite (dict_In_get _ _ _ ND I).
    change v with (fst (v, d)). now apply in_map.
Qed.

Lemma has_edge_copy g x y :
  is_simple g = true -> nx.has_edge (nx.copy g) x y = true <-> nx.has_edge g x y = true.
Proof.
  intros S. assert (ND := is_simple_NoDup _ S).
  rewrite copy_add_all, has_edge_add_all. split.
  - intros [E|[[[u v] d] [I J]]].
    + apply has_edge_data in E. now rewrite edge_data_copy_base in E.
    + assert (E : nx.has_edge g u v = true) by (apply has_edge_adjacency_items; eauto).
      unfold joins in J; simpl in J. destruct J as [[-> ->]|[-> ->]]; auto.
      now apply is_simple_edge in E.
  - intros E. right. apply has_edge_adjacency_items in E; auto. destruct E as [d I].
    exists (x, y, d). split; auto. left. auto.
Qed.

Lemma In_nodes_copy g x :
  is_simple g = true -> In x (nx.nodes (nx.copy g)) <-> In x (nx.nodes g).
Proof.
  intros S. assert (ND := is_simple_NoDup _ S).
  rewrite copy_add_all, In_nodes_add_all, In_nodes_copy_base. split; auto.
  intros [I|[[[u v] d] [I J]]]; auto.
  assert (E : nx.has_edge g u v = true) by (apply has_edge_adjacency_items; eauto).
  simpl in J. destruct J as [->| ->].
  - eapply has_edge_node; eauto.
  - now apply is_simple_edge in E.
Qed.

(** [nx.complement] *)

Lemma In_complement_pairs g a b :
  In (a, b) (complement_pairs g) <->
  In a (nx.nodes g) /\ In b (nx.nodes g) /\ nx.has_edge g a b = false /\ a <> b.
Proof.
  unfold complement_pairs. rewrite in_flat_map. split.
  - intros [n [I J]]. apply in_map_iff in J. destruct J as [n2 [[= <- <-] J]].
    apply filter_In in J. rewrite andb_true_iff, !negb_true_iff in J.
    destruct J as [J [E N]]. repeat split; auto.
    intros ->. now rewrite key_eqb_refl in N.
  - intros [Ia [Ib [E N]]]. exists a. split; auto.
    apply in_map_iff. exists b. split; auto. apply filter_In. split; auto.
    rewrite E. simpl. now rewrite key_eqb_neq.
Qed.

Lemma complement_add_all g :
  nx.complement g =
  add_all (fun _ : K * K => nx.no_attr) fst snd
          (nx.add_nodes_from nx.empty (nx.nodes g)) (complement_pairs g).
Proof. reflexivity. Qed.

Lemma sym_complement g : sym (nx.complement g).
Proof.
  rewrite complement_add_all. apply sym_add_all, sym_add_nodes_from, sym_empty.
Qed.

Lemma closed_complement g : closed (nx.complement g).
Proof.
  rewrite complement_add_all. apply closed_add_all, closed_add_nodes_from, closed_empty.
Qed.

Lemma has_edge_complement g x y :
  sym g ->
  nx.has_edge (nx.complement g) x y = true <->
  In x (nx.nodes g) /\ In y (nx.nodes g) /\ nx.has_edge g x y = false /\ x <> y.
Proof.
  intros S. rewrite complement_add_all, has_edge_add_all. split.
  - intros [E|[[a b] [I J]]].
    + apply has_edge_data in E. rewrite edge_data_add_nodes_from in E. now elim E.
    + apply In_complement_pairs in I. destruct I as [Ia [Ib [E N]]].
      unfold joins in J; simpl in J. destruct J as [[-> ->]|[-> ->]]; auto.
      rewrite (sym_has_edge b a S). auto.
  - intros [Ix [Iy [E N]]]. right. exists (x, y). split.
    + now apply In_complement_pairs.
    + left. auto.
Qed.

Lemma In_nodes_complement g x : In x (nx.nodes (nx.complement g)) <-> In x (nx.nodes g).
Proof.
  rewrite complement_add_all, In_nodes_add_all, In_nodes_add_nodes_from. split.
  - intros [[[]|I]|[[a b] [I J]]]; auto.
    apply In_complement_pairs in I. simpl in J. destruct J as [->| ->]; tauto.
  - auto.
Qed.

(** [nx.set_node_attributes] *)

Lemma nodes_set_node_attributes_all g t :
  nx.nodes (nx.set_node_attributes_all g t) = nx.nodes g.
Proof.
  unfold nx.set_node_attributes_all, nx.nodes, Dict.keys. rewrite map_map. reflexivity.
Qed.

Lemma get_set_node_attributes_all g t x :
  Dict.get (nx.set_node_attributes_all g t) x =
  option_map (fun d => nx.mk_ndata (Some t) (nx.n_adj d)) (Dict.get g x).
Proof.
  unfold nx.set_node_attributes_all.
  apply (get_map_values (fun d => nx.mk_ndata (Some t) (nx.n_adj d))).
Qed.

Lemma adj_set_node_attributes_all g t x :
  nx.adj (nx.set_node_attributes_all g t) x = nx.adj g x.
Proof.
  unfold nx.adj. rewrite get_set_node_attributes_all. now destruct (Dict.get g x).
Qed.

Lemma set_node_type_Ok g n t :
  In n (nx.nodes g) -> exists g', nx.set_node_type g n t = Ok g'.
Proof.
  intros I. apply In_keys_get in I. destruct I as [d E].
  unfold nx.set_node_type. rewrite E. eauto.
Qed.

Lemma set_node_type_inv g n t g' :
  nx.set_node_type g n t = Ok g' ->
  In n (nx.nodes g) /\
  nx.nodes g' = nx.nodes g /\
  (forall x, nx.adj g' x = nx.adj g x) /\
  (forall x, nx.node_type g' x = if key_eqb x n then Some t else nx.node_type g x).
Proof.
  unfold nx.set_node_type. destruct (Dict.get g n) as [d|] eqn:E; [|discriminate].
  intros [= <-]. assert (I : In n (nx.nodes g)) by (eapply get_Some_keys; eauto).
  repeat split; auto.
  - now apply dict_keys_set_mem.
  - intros x. unfold nx.adj. destruct (key_eqb_spec n x) as [->|N].
    + now rewrite dict_get_set_eq, E.
    + now rewrite dict_get_set_neq.
  - intros x. unfold nx.node_type. destruct (key_eqb_spec x n) as [->|N].
    + now rewrite dict_get_set_eq.
    + now rewrite dict_get_set_neq by congruence.
Qed.

Lemma set_node_attributes_inv (values : Dict.t K Z) g :
  nx.nodes (nx.set_node_attributes g values) = nx.nodes g /\
  (forall x, nx.adj (nx.set_node_attributes g values) x = nx.adj g x) /\
  (NoDup (Dict.keys values) ->
   forall x, In x (nx.nodes g) ->
     nx.node_type (nx.set_node_attributes g values) x =
     match Dict.get values x with
     | Some t => Some t
     | None => nx.node_type g x
     end).
Proof.
  unfold nx.set_node_attributes.
  revert g; induction values as [|[k t] r IH]; intros g; simpl.
  - auto.
  - destruct (nx.set_node_type g k t) as [g'|e] eqn:E.
    + apply set_node_type_inv in E. destruct E as [Ik [En [Ea Et]]].
      destruct (IH g') as [Hn [Ha Ht]]. repeat split.
      * congruence.
      * intros x. now rewrite Ha, Ea.
      * intros ND x Ix. inversion ND as [|? ? Nk ND']; subst.
        rewrite Ht by (auto; congruence). rewrite Et.
        destruct (key_eqb_spec x k) as [->|N]; auto.
        apply dict_get_None in Nk. now rewrite Nk.
    + destruct (IH g) as [Hn [Ha Ht]]. repeat split; auto.
      intros ND x Ix. inversion ND as [|? ? Nk ND']; subst.
      rewrite Ht by auto.
      destruct (key_eqb_spec x k) as [->|N]; auto.
      exfalso. destruct (set_node_type_Ok g k t Ix) as [g' E']. congruence.
Qed.

End GraphOps.

(** *** The line graph *)

Section LineGraphFacts.

Lemma In_incident G u e :
  In e (incident G u) <-> exists v, nx.has_edge G u v = true /\ e = sorted_node u v.
Proof.
  unfold incident, nx.edges_at. rewrite map_map. simpl. rewrite in_map_iff. split.
  - intros [v [<- I]]. exists v. split; auto. now apply has_edge_In.
  - intros [v [E ->]]. exists v. split; auto. now apply has_edge_In.
Qed.

Lemma In_set_update (A : Type) `{Hashable A} (xs s : list A) x :
  In x (set_update s xs) <-> In x s \/ In x xs.
Proof.
  unfold set_update. revert s; induction xs as [|a r IH]; intros s; simpl.
  - tauto.
  - rewrite IH. destruct (existsb (key_eqb a) s) eqn:E.
    + apply existsb_key_In in E. intuition congruence.
    + rewrite in_app_iff. simpl. intuition.
Qed.

Lemma sorted_edge_ends a b :
  _sorted_edge a b = (a, b) \/ _sorted_edge a b = (b, a).
Proof. unfold _sorted_edge. destruct (edge_leb a b); auto. Qed.

Lemma clique_edges_ends l e :
  (exists p, In p (clique_edges l) /\ (e = fst p \/ e = snd p)) <->
  In e l /\ (2 <= List.length l)%nat.
Proof.
  induction l as [|a r IH]; simpl.
  - split; [intros [p [[] _]] | tauto].
  - split.
    + intros [p [I E]]. apply in_app_iff in I. destruct I as [I|I].
      * apply in_map_iff in I. destruct I as [b [<- I]].
        assert (L : (1 <= List.length r)%nat) by (destruct r; simpl; [destruct I | lia]).
        destruct (sorted_edge_ends a b) as [R|R]; rewrite R in E; simpl in E;
          split; try lia; destruct E as [->| ->]; auto.
      * assert (X : In e r /\ (2 <= List.length r)%nat) by (apply IH; eauto).
        destruct X. split; [auto | lia].
    + intros [[<-|I] L].
      * destruct r as [|b r']; simpl in L; [lia|].
        exists (_sorted_edge a b). split.
        -- apply in_app_iff. left. simpl. auto.
        -- destruct (sorted_edge_ends a b) as [R|R]; rewrite R; simpl; auto.
      * exists (_sorted_edge a e). split.
        -- apply in_app_iff. left. now apply in_map.
        -- destruct (sorted_edge_ends a e) as [R|R]; rewrite R; simpl; auto.
Qed.

Lemma lg_fold_nodes G l acc e :
  In e (nx.nodes (fst (fold_left (lg_step G) l acc))) <->
  In e (nx.nodes (fst acc)) \/ exists u, In u l /\ incident G u = [e].
Proof.
  revert acc; induction l as [|u r IH]; intros acc; simpl.
  - split; auto. intros [I|[u [[] _]]]; auto.
  - rewrite IH. unfold lg_step. cbn [fst snd]. fold (incident G u).
    destruct (incident G u) as [|a [|b t]] eqn:E.
    + split.
      * intros [I|[w [Iw Ew]]]; eauto.
      * intros [I|[w [[<-|Iw] Ew]]]; eauto. congruence.
    + rewrite In_nodes_add_node. split.
      * intros [[->|I]|[w [Iw Ew]]]; eauto.
      * intros [I|[w [[<-|Iw] Ew]]]; eauto. left. left. congruence.
    + split.
      * intros [I|[w [Iw Ew]]]; eauto.
      * intros [I|[w [[<-|Iw] Ew]]]; eauto. congruence.
Qed.

Lemma lg_fold_edges G l acc p :
  In p (snd (fold_left (lg_step G) l acc)) <->
  In p (snd acc) \/ exists u, In u l /\ In p (clique_edges (incident G u)).
Proof.
  revert acc; induction l as [|u r IH]; intros acc; simpl.
  - split; auto. intros [I|[u [[] _]]]; auto.
  - rewrite IH. unfold lg_step. cbn [fst snd]. fold (incident G u).
    rewrite In_set_update. split.
    + intros [[I|I]|[w [Iw Ew]]]; eauto.
    + intros [I|[w [[<-|Iw] Ew]]]; eauto.
Qed.

Lemma lg_fold_inv G l acc :
  NoDup (nx.nodes (fst acc)) -> closed (fst acc) ->
  NoDup (nx.nodes (fst (fold_left (lg_step G) l acc))) /\
  closed (fst (fold_left (lg_step G) l acc)).
Proof.
  revert acc; induction l as [|u r IH]; intros acc ND C; simpl; auto.
  apply IH; unfold lg_step; simpl;
    destruct (map _ (nx.edges_at G u)) as [|a [|b t]]; auto.
  - now apply NoDup_nodes_add_node.
  - now apply closed_add_node.
Qed.

Lemma In_nodes_line_graph G e :
  In e (nx.nodes (line_graph G)) <->
  exists u v, nx.has_edge G u v = true /\ e = sorted_node u v.
Proof.
  unfold line_graph. rewrite add_edges_from_add_all, In_nodes_add_all.
  rewrite lg_fold_nodes. simpl. split.
  - intros [[[]|[u [_ E]]]|[p [I J]]].
    + assert (I : In e (incident G u)) by (rewrite E; simpl; auto).
      apply In_incident in I. destruct I as [v I]. eauto.
    + apply lg_fold_edges in I. simpl in I. destruct I as [[]|[u [_ I]]].
      assert (I' : In e (incident G u)) by (apply clique_edges_ends; eauto).
      apply In_incident in I'. destruct I' as [v I']. eauto.
  - intros [u [v [E ->]]].
    assert (I : In (sorted_node u v) (incident G u)) by (apply In_incident; eauto).
    assert (Iu : In u (nx.nodes G)) by (eapply has_edge_node; eauto).
    destruct (incident G u) as [|a [|b t]] eqn:Einc.
    + destruct I.
    + left. right. exists u. split; auto. destruct I as [<-|[]]. auto.
    + right.
      assert (X : exists p, In p (clique_edges (incident G u)) /\
                            (sorted_node u v = fst p \/ sorted_node u v = snd p)).
      { apply clique_edges_ends. rewrite Einc. split; auto. simpl. lia. }
      destruct X as [p [Ip Ep]]. exists p. split; auto.
      apply lg_fold_edges. right. eauto.
Qed.

Lemma line_graph_inv G :
  NoDup (nx.nodes (line_graph G)) /\ closed (line_graph G).
Proof.
  unfold line_graph. rewrite add_edges_from_add_all.
  destruct (lg_fold_inv G (nx.nodes G) (nx.empty, [])) as [ND C].
  - constructor.
  - apply closed_empty.
  - split; [now apply NoDup_nodes_add_all | now apply closed_add_all].
Qed.

End LineGraphFacts.

(** *** Building the index from an observed graph *)

Lemma forallb_const_true (A : Type) (l : list A) : forallb (fun _ => true) l = true.
Proof. induction l; simpl; auto. Qed.

Lemma init_from_graph dim gr :
  isinstance_DiGraph (cls gr) || isinstance_MultiGraph (cls gr) = false ->
  __init__ (Some dim) (Some gr) = Ok {| _graph := Some (index_of_graph (content gr)) |}.
Proof.
  intros E. unfold __init__. rewrite E.
  cbv zeta. rewrite forallb_const_true. reflexivity.
Qed.

Section TypedGraph.
Variable gr : nx.Graph node.

Lemma sym_typed_graph : sym (typed_graph gr).
Proof.
  unfold typed_graph. rewrite add_edges_from_add_all.
  apply sym_add_all, sym_set_edge_attributes, sym_copy.
Qed.

Lemma closed_typed_graph : closed (typed_graph gr).
Proof.
  unfold typed_graph. rewrite add_edges_from_add_all.
  apply closed_add_all, closed_set_edge_attributes, closed_copy.
Qed.

Lemma complement_edges_join x y :
  (exists e, In e (nx.edges (nx.complement (nx.copy gr))) /\ joins fst snd e x y) <->
  nx.has_edge (nx.complement (nx.copy gr)) x y = true.
Proof.
  split.
  - intros [[a b] [I J]]. apply In_edges in I.
    unfold joins in J; simpl in J. destruct J as [[-> ->]|[-> ->]]; auto.
    now rewrite (sym_has_edge b a (sym_complement (nx.copy gr))).
  - intros E.
    destruct (edges_complete x y (sym_complement (nx.copy gr))
                (closed_complement (nx.copy gr)) E) as [I|I].
    + exists (x, y). split; auto. left; auto.
    + exists (y, x). split; auto. right; auto.
Qed.

Lemma has_edge_typed_graph x y :
  nx.has_edge (typed_graph gr) x y = true <->
  nx.has_edge (nx.copy gr) x y = true \/
  nx.has_edge (nx.complement (nx.copy gr)) x y = true.
Proof.
  unfold typed_graph. rewrite add_edges_from_add_all, has_edge_add_all.
  rewrite has_edge_set_edge_attributes, complement_edges_join. tauto.
Qed.

Lemma In_nodes_typed_graph x :
  In x (nx.nodes (typed_graph gr)) <-> In x (nx.nodes (nx.copy gr)).
Proof.
  unfold typed_graph. rewrite add_edges_from_add_all, In_nodes_add_all.
  rewrite nodes_set_edge_attributes. split; auto.
  intros [I|[[a b] [I J]]]; auto. apply In_edges in I.
  assert (Ia := has_edge_node _ _ _ I).
  assert (Ib := closed_complement (nx.copy gr) _ _ I).
  rewrite In_nodes_complement in Ia, Ib. simpl in J. destruct J as [->| ->]; auto.
Qed.

Lemma edge_type_typed_graph_complement x y :
  nx.has_edge (nx.complement (nx.copy gr)) x y = true ->
  nx.edge_type (typed_graph gr) x y = Some 0.
Proof.
  intros E. rewrite edge_type_data. unfold typed_graph.
  rewrite add_edges_from_add_all.
  rewrite (@edge_data_add_all_typed _ _ _ _ _ _ _ _ x y 0); auto.
  now apply complement_edges_join.
Qed.

Lemma edge_type_typed_graph_source x y :
  nx.has_edge (nx.copy gr) x y = true ->
  nx.edge_type (typed_graph gr) x y = Some 1.
Proof.
  intros E. rewrite edge_type_data. unfold typed_graph.
  rewrite add_edges_from_add_all, edge_data_add_all_other.
  - rewrite edge_data_set_edge_attributes.
    apply has_edge_data in E. now destruct (edge_data (nx.copy gr) x y).
  - intros e I J.
    assert (X : nx.has_edge (nx.complement (nx.copy gr)) x y = true)
      by (apply complement_edges_join; eauto).
    apply (has_edge_complement _ _ (sym_copy gr)) in X. destruct X as [_ [_ [X _]]].
    congruence.
Qed.

Lemma edge_type_typed_graph x y :
  nx.has_edge (typed_graph gr) x y = true ->
  exists t, nx.edge_type (typed_graph gr) x y = Some t.
Proof.
  intros E. apply has_edge_typed_graph in E. destruct E as [E|E].
  - exists 1. now apply edge_type_typed_graph_source.
  - exists 0. now apply edge_type_typed_graph_complement.
Qed.

End TypedGraph.

Lemma sorted_node_comm u v : sorted_node u v = sorted_node v u.
Proof.
  unfold sorted_node. destruct (Z.leb_spec u v), (Z.leb_spec v u); auto; try lia.
  assert (u = v) by lia. now subst.
Qed.

Lemma sorted_node_eq a b x y :
  sorted_node a b = sorted_node x y -> (a = x /\ b = y) \/ (a = y /\ b = x).
Proof.
  unfold sorted_node. destruct (a <=? b), (x <=? y); intros [= -> ->]; auto.
Qed.

Lemma sorted_node_lt u v : u < v -> sorted_node u v = (u, v).
Proof. intros L. unfold sorted_node. destruct (Z.leb_spec u v); auto; lia. Qed.

Lemma get_edge_attributes_build (g : nx.Graph node) :
  nx.get_edge_attributes g =
  build (fun e : node * node => e) (fun e => nx.edge_type g (fst e) (snd e)) (nx.edges g) [].
Proof. reflexivity. Qed.

Lemma sort_keys_build (attr : Dict.t (node * node) Z) :
  sort_keys attr =
  build (fun kv : node * node * Z => sorted_key (fst kv)) (fun kv => Some (snd kv)) attr [].
Proof. reflexivity. Qed.

Lemma In_get_edge_attributes (g : nx.Graph node) e t :
  In (e, t) (nx.get_edge_attributes g) -> nx.edge_type g (fst e) (snd e) = Some t.
Proof.
  rewrite get_edge_attributes_build. intros I. apply In_build_inv in I.
  destruct I as [[]|[e' [_ [-> E]]]]. exact E.
Qed.

Lemma get_edge_attributes_edge (g : nx.Graph node) e t :
  In e (nx.edges g) -> nx.edge_type g (fst e) (snd e) = Some t ->
  In (e, t) (nx.get_edge_attributes g).
Proof.
  intros I E. apply dict_get_Some_In. rewrite get_edge_attributes_build.
  apply get_build.
  - intros e' w _ -> E'. congruence.
  - left. exists e. auto.
Qed.

Lemma NoDup_keys_sort_keys attr : NoDup (Dict.keys (sort_keys attr)).
Proof. rewrite sort_keys_build. apply NoDup_keys_build. constructor. Qed.

(** The re-keyed attribute dict gives every edge its type under the
    sorted pair of its endpoints. *)
Lemma get_sorted_attr (g : nx.Graph node) x y t :
  sym g -> closed g -> nx.has_edge g x y = true -> nx.edge_type g x y = Some t ->
  Dict.get (sort_keys (nx.get_edge_attributes g)) (sorted_node x y) = Some t.
Proof.
  intros S C E T. rewrite sort_keys_build. apply get_build.
  - intros [[a b] w] w' I Ek [= <-]. simpl in Ek.
    apply In_get_edge_attributes in I. simpl in I.
    unfold sorted_key in Ek. simpl in Ek.
    apply sorted_node_eq in Ek. destruct Ek as [[-> ->]|[-> ->]].
    + congruence.
    + rewrite (sym_edge_type y x S) in I. congruence.
  - left. destruct (edges_complete x y S C E) as [I|I].
    + exists ((x, y), t). repeat split; auto.
      apply get_edge_attributes_edge; auto.
    + exists ((y, x), t). repeat split.
      * apply get_edge_attributes_edge; auto. simpl.
        now rewrite (sym_edge_type y x S).
      * simpl. unfold sorted_key. simpl. apply sorted_node_comm.
Qed.

Section IndexOfGraph.
Variable gr : nx.Graph node.

Lemma nodes_index_of_graph :
  nx.nodes (index_of_graph gr) = nx.nodes (line_graph (typed_graph gr)).
Proof. unfold index_of_graph. apply set_node_attributes_inv. Qed.

Lemma adj_index_of_graph e :
  nx.adj (index_of_graph gr) e = nx.adj (line_graph (typed_graph gr)) e.
Proof. unfold index_of_graph. apply set_node_attributes_inv. Qed.

Lemma NoDup_nodes_index_of_graph : NoDup (nx.nodes (index_of_graph gr)).
Proof. rewrite nodes_index_of_graph. apply line_graph_inv. Qed.

Lemma closed_index_of_graph : closed (index_of_graph gr).
Proof.
  intros x y E. rewrite nodes_index_of_graph.
  apply (proj2 (line_graph_inv (typed_graph gr)) x y).
  unfold nx.has_edge in *. now rewrite adj_index_of_graph in E.
Qed.

Lemma In_nodes_index_of_graph e :
  In e (nx.nodes (index_of_graph gr)) <->
  exists u v, nx.has_edge (typed_graph gr) u v = true /\ e = sorted_node u v.
Proof. rewrite nodes_index_of_graph. apply In_nodes_line_graph. Qed.

Lemma node_type_index_of_graph u v :
  nx.has_edge (typed_graph gr) u v = true ->
  nx.node_type (index_of_graph gr) (sorted_node u v) = nx.edge_type (typed_graph gr) u v.
Proof.
  intros E. destruct (edge_type_typed_graph gr u v E) as [t T].
  unfold index_of_graph.
  destruct (set_node_attributes_inv
              (sort_keys (nx.get_edge_attributes (typed_graph gr)))
              (line_graph (typed_graph gr))) as [_ [_ Ht]].
  rewrite Ht.
  - rewrite (@get_sorted_attr _ u v t (sym_typed_graph gr) (closed_typed_graph gr) E T).
    now rewrite T.
  - apply NoDup_keys_sort_keys.
  - apply In_nodes_line_graph. eauto.
Qed.

Lemma typed_index_of_graph e :
  In e (nx.nodes (index_of_graph gr)) -> exists t, nx.node_type (index_of_graph gr) e = Some t.
Proof.
  intros I. apply In_nodes_index_of_graph in I. destruct I as [u [v [E ->]]].
  rewrite node_type_index_of_graph by auto. now apply edge_type_typed_graph.
Qed.

End IndexOfGraph.

(** * Properties of the wrapper *)

Lemma present_In self g e : _graph self = Some g -> present self e <-> In e (nx.nodes g).
Proof.
  intros E. unfold present, get_elements, the_graph. rewrite E. simpl. split.
  - intros [els [[= <-] I]]. exact I.
  - intros I. eauto.
Qed.

Lemma present_graph self e : present self e -> exists g, _graph self = Some g /\ In e (nx.nodes g).
Proof.
  intros [els [E I]]. unfold get_elements, the_graph in E.
  destruct (_graph self) as [g|]; [|discriminate]. simpl in E.
  injection E as <-. eauto.
Qed.

Lemma int_of_string_raises s x : int_of_string s = Raise x -> x = ValueError.
Proof.
  unfold int_of_string.
  destruct (match strip s with
            | EmptyString => None
            | String c r =>
                if Ascii.eqb c "-"%char then option_map Z.opp (digits_value AtStart 0 r)
                else if Ascii.eqb c "+"%char then digits_value AtStart 0 r
                else digits_value AtStart 0 (strip s)
            end); [|congruence].
  destruct (int_max_str_digits <? count_digits (strip s)); congruence.
Qed.

Lemma int_of_float_raises f x :
  int_of_float f = Raise x -> x = ValueError \/ x = OverflowError.
Proof. destruct f; simpl; intros [= <-]; auto. Qed.

Lemma py_int_raises v x :
  py_int v = Raise x -> x = ValueError \/ x = TypeError \/ x = OverflowError.
Proof.
  destruct v; simpl; try discriminate.
  - intros E. left. eapply int_of_string_raises; eauto.
  - intros E. destruct (int_of_float_raises _ E); auto.
  - intros [= <-]. auto.
Qed.

(** A value on which [int] raises: the call raises what the [try] makes
    of the exception and the wrapper is the one it was. *)
Lemma set_edge_type_uncoercible self e v x :
  py_int v = Raise x -> set_edge_type self e v = (self, Raise (reraised x)).
Proof.
  intros E. unfold set_edge_type. rewrite E. now destruct x.
Qed.

Lemma set_node_type_get (g g' : nx.Graph EdgeId) n t :
  nx.set_node_type g n t = Ok g' ->
  exists d, Dict.get g n = Some d /\
            Dict.get g' n = Some (nx.mk_ndata (Some t) (nx.n_adj d)) /\
            forall x, x <> n -> Dict.get g' x = Dict.get g x.
Proof.
  unfold nx.set_node_type. destruct (Dict.get g n) as [d|] eqn:E; [|discriminate].
  intros [= <-]. exists d. repeat split.
  - apply dict_get_set_eq.
  - intros x N. apply dict_get_set_neq. congruence.
Qed.

(** A value [int] accepts, on an element: the call stores the integer. *)
Lemma set_edge_type_coerced self g e v z :
  _graph self = Some g -> In e (nx.nodes g) -> py_int v = Ok z ->
  exists g', nx.set_node_type g e z = Ok g' /\
             set_edge_type self e v = ({| _graph := Some g' |}, Ok tt).
Proof.
  intros G I E. destruct (set_node_type_Ok g e z I) as [g' S].
  exists g'. split; auto.
  unfold set_edge_type, the_graph. now rewrite E, G, S.
Qed.

(** Whatever the call does, it leaves the wrapper alone or rewrites one
    node's type. *)
Lemma set_edge_type_cases self e v :
  fst (set_edge_type self e v) = self \/
  exists g g' z, _graph self = Some g /\ nx.set_node_type g e z = Ok g' /\
                 fst (set_edge_type self e v) = {| _graph := Some g' |}.
Proof.
  unfold set_edge_type, the_graph.
  destruct (py_int v) as [z|[]]; auto.
  destruct (_graph self) as [g|] eqn:G; auto.
  destruct (nx.set_node_type g e z) as [g'|x] eqn:S; auto.
  right. exists g, g', z. auto.
Qed.

Lemma get_edge_type_set self g g' e z :
  _graph self = Some g -> nx.set_node_type g e z = Ok g' ->
  get_edge_type {| _graph := Some g' |} e = Ok z /\
  forall e', e' <> e -> get_edge_type {| _graph := Some g' |} e' = get_edge_type self e'.
Proof.
  intros G S. apply set_node_type_get in S. destruct S as [d [Ed [Ed' Eo]]].
  unfold get_edge_type, the_graph. simpl. rewrite G. simpl. split.
  - now rewrite Ed'.
  - intros e' N. now rewrite Eo.
Qed.

Lemma neighbors_set_node_type (g g' : nx.Graph EdgeId) n t e :
  nx.set_node_type g n t = Ok g' -> nx.neighbors g' e = nx.neighbors g e.
Proof.
  intros S. apply set_node_type_get in S. destruct S as [d [Ed [Ed' Eo]]].
  unfold nx.neighbors. destruct (key_eqb_spec e n) as [->|N].
  - now rewrite Ed, Ed'.
  - now rewrite Eo.
Qed.

(** One call changes neither the elements nor any neighbourhood. *)
Lemma set_edge_type_frame self e v :
  get_elements (fst (set_edge_type self e v)) = get_elements self /\
  forall e', graph_neighbors (fst (set_edge_type self e v)) e' = graph_neighbors self e'.
Proof.
  destruct (set_edge_type_cases self e v) as [-> | [g [g' [z [G [S ->]]]]]]; auto.
  unfold get_elements, graph_neighbors, the_graph. simpl. rewrite G. simpl. split.
  - f_equal. apply set_node_type_inv in S. tauto.
  - intros e'. eapply neighbors_set_node_type; eauto.
Qed.

(** *** The indices the wrapper can hold *)

Lemma well_typed_complete dim :
  well_typed (nx.set_node_attributes_all (line_graph (complete_on (range dim))) 0).
Proof.
  split.
  - intros x y E. rewrite nodes_set_node_attributes_all.
    apply (proj2 (line_graph_inv (complete_on (range dim))) x y).
    unfold nx.has_edge in *. now rewrite adj_set_node_attributes_all in E.
  - intros e I. exists 0. unfold nx.node_type.
    rewrite get_set_node_attributes_all. rewrite nodes_set_node_attributes_all in I.
    apply In_keys_get in I. destruct I as [d ->]. reflexivity.
Qed.

Lemma well_typed_index_of_graph gr : well_typed (index_of_graph gr).
Proof.
  split.
  - apply closed_index_of_graph.
  - apply typed_index_of_graph.
Qed.

Lemma well_typed_set_node_type g g' n t :
  well_typed g -> nx.set_node_type g n t = Ok g' -> well_typed g'.
Proof.
  intros [C T] S. apply set_node_type_inv in S. destruct S as [_ [En [Ea Et]]]. split.
  - intros x y E. rewrite En. apply (C x y).
    unfold nx.has_edge in *. now rewrite Ea in E.
  - intros e I. rewrite En in I. rewrite Et.
    destruct (key_eqb e n); eauto.
Qed.

Lemma init_from_count dim :
  0 <= dim ->
  __init__ (Some dim) None
  = Ok {| _graph := Some (nx.set_node_attributes_all (line_graph (complete_on (range dim))) 0) |}.
Proof.
  intros L. unfold __init__, complete_graph, nodes_or_number.
  destruct (Z.ltb_spec dim 0); [lia | reflexivity].
Qed.

Lemma init_count_inv dim w :
  __init__ (Some dim) None = Ok w ->
  0 <= dim /\
  w = {| _graph := Some (nx.set_node_attributes_all (line_graph (complete_on (range dim))) 0) |}.
Proof.
  unfold __init__, complete_graph, nodes_or_number.
  destruct (Z.ltb_spec dim 0); simpl; [discriminate|].
  intros [= <-]. split; [lia | reflexivity].
Qed.

Lemma init_graph_inv dim gr w :
  __init__ (Some dim) (Some gr) = Ok w ->
  isinstance_DiGraph (cls gr) || isinstance_MultiGraph (cls gr) = false /\
  w = {| _graph := Some (index_of_graph (content gr)) |}.
Proof.
  intros E.
  destruct (isinstance_DiGraph (cls gr) || isinstance_MultiGraph (cls gr)) eqn:C.
  - unfold __init__ in E. rewrite C in E. discriminate.
  - rewrite init_from_graph in E by auto. injection E as <-. auto.
Qed.

Lemma index_well_typed w : index w -> exists g, _graph w = Some g /\ well_typed g.
Proof.
  induction 1 as [dim w E|dim gr w E|w id v I [g [G W]]].
  - apply init_count_inv in E. destruct E as [_ ->].
    eexists. split; [reflexivity|]. apply well_typed_complete.
  - apply init_graph_inv in E. destruct E as [_ ->].
    eexists. split; [reflexivity|]. apply well_typed_index_of_graph.
  - unfold set_particle.
    destruct (set_edge_type_cases w id v) as [-> | [g0 [g' [z [G0 [S ->]]]]]]; eauto.
    exists g'. split; auto. rewrite G in G0. injection G0 as <-.
    eapply well_typed_set_node_type; eauto.
Qed.

Lemma get_edge_type_node_type self g e t :
  _graph self = Some g -> nx.node_type g e = Some t -> get_edge_type self e = Ok t.
Proof.
  intros G T. unfold get_edge_type, the_graph. rewrite G. simpl.
  unfold nx.node_type in T. destruct (Dict.get g e) as [d|]; [|discriminate].
  now rewrite T.
Qed.

Lemma filterM_total (A : Type) (p : A -> result bool) (f : A -> bool) (l : list A) :
  (forall x, In x l -> p x = Ok (f x)) -> filterM p l = Ok (filter f l).
Proof.
  induction l as [|a r IH]; intros P; simpl; auto.
  rewrite (P a) by (now left). simpl.
  rewrite IH by (intros x I; apply P; now right). reflexivity.
Qed.

Lemma is_active_edge_active self g e :
  _graph self = Some g -> well_typed g -> In e (nx.nodes g) ->
  is_active_edge self e = Ok (active self e).
Proof.
  intros G [_ T] I. destruct (T e I) as [t Et].
  unfold is_active_edge, active.
  now rewrite (get_edge_type_node_type self e G Et).
Qed.

(** *** The complete graph and its line graph *)

Lemma In_range_from s n z :
  In z (map Z.of_nat (seq s n)) <-> Z.of_nat s <= z < Z.of_nat (s + n).
Proof.
  rewrite in_map_iff. split.
  - intros [k [<- I]]. apply in_seq in I. lia.
  - intros B. exists (Z.to_nat z). split; [lia|]. apply in_seq. lia.
Qed.

Lemma In_range z n : In z (range n) <-> 0 <= z < n.
Proof. unfold range. rewrite In_range_from. lia. Qed.

Lemma In_combinations2_range_from s n a b :
  In (a, b) (combinations2 (map Z.of_nat (seq s n))) <->
  Z.of_nat s <= a /\ a < b /\ b < Z.of_nat (s + n).
Proof.
  revert s; induction n as [|n IH]; intros s; simpl.
  - lia.
  - rewrite in_app_iff, in_map_iff, IH. split.
    + intros [[z [[= <- <-] I]]|B].
      * apply In_range_from in I. lia.
      * lia.
    + intros B. destruct (Z.eq_dec a (Z.of_nat s)) as [->|N].
      * left. exists b. split; auto. apply In_range_from. lia.
      * right. lia.
Qed.

Lemma has_edge_complete_graph n u v :
  nx.has_edge (complete_on (range n)) u v = true <-> 0 <= u < n /\ 0 <= v < n /\ u <> v.
Proof.
  unfold complete_on.
  assert (L : @List.length node (range n) = Z.to_nat n).
  { unfold range. now rewrite length_map, length_seq. }
  rewrite L. destruct (Z.ltb_spec 1 (Z.of_nat (Z.to_nat n))) as [B|B].
  - rewrite add_edges_from_add_all, has_edge_add_all. split.
    + intros [E|[[a b] [I J]]].
      * apply has_edge_data in E. rewrite edge_data_add_nodes_from in E. now elim E.
      * unfold range in I. apply In_combinations2_range_from in I.
        unfold joins in J; simpl in J. lia.
    + intros [Bu [Bv N]]. right.
      destruct (Z.lt_total u v) as [Lt|[Eq|Gt]]; [|congruence|].
      * exists (u, v). split; [|left; auto].
        unfold range. apply In_combinations2_range_from. lia.
      * exists (v, u). split; [|right; auto].
        unfold range. apply In_combinations2_range_from. lia.
  - split.
    + intros E. apply has_edge_data in E. rewrite edge_data_add_nodes_from in E. now elim E.
    + lia.
Qed.

Lemma In_nodes_complete_index n u v :
  In (u, v) (nx.nodes (nx.set_node_attributes_all (line_graph (complete_on (range n))) 0)) <->
  0 <= u /\ u < v /\ v < n.
Proof.
  rewrite nodes_set_node_attributes_all, In_nodes_line_graph. split.
  - intros [a [b [E S]]]. apply has_edge_complete_graph in E.
    unfold sorted_node in S. destruct (Z.leb_spec a b); injection S as -> ->; lia.
  - intros B. exists u, v. split.
    + apply has_edge_complete_graph. lia.
    + symmetry. apply sorted_node_lt. lia.
Qed.

(** *** A simple observed graph *)

Lemma has_edge_typed_graph_simple gr x y :
  is_simple gr = true ->
  nx.has_edge (typed_graph gr) x y = true <->
  x <> y /\ In x (nx.nodes gr) /\ In y (nx.nodes gr).
Proof.
  intros S. rewrite has_edge_typed_graph, has_edge_copy by auto.
  rewrite (has_edge_complement x y (sym_copy gr)), !In_nodes_copy by auto. split.
  - intros [E|[Ix [Iy [_ N]]]]; auto.
    destruct (is_simple_edge _ _ _ S E) as [N [Iy _]].
    repeat split; auto. eapply has_edge_node; eauto.
  - intros [N [Ix Iy]]. destruct (nx.has_edge gr x y) eqn:E; auto.
    right. repeat split; auto.
    destruct (nx.has_edge (nx.copy gr) x y) eqn:E'; auto.
    pose proof (proj1 (@has_edge_copy _ _ gr x y S) E'). congruence.
Qed.

Lemma edge_type_typed_graph_simple gr x y :
  is_simple gr = true ->
  nx.has_edge (typed_graph gr) x y = true ->
  nx.edge_type (typed_graph gr) x y = Some (if nx.has_edge gr x y then 1 else 0).
Proof.
  intros S E. apply has_edge_typed_graph in E. destruct E as [E|E].
  - rewrite edge_type_typed_graph_source by auto.
    now rewrite (proj1 (@has_edge_copy _ _ gr x y S) E).
  - rewrite edge_type_typed_graph_complement by auto.
    apply (has_edge_complement x y (sym_copy gr)) in E. destruct E as [_ [_ [E _]]].
    destruct (nx.has_edge gr x y) eqn:E'; auto.
    pose proof (proj2 (@has_edge_copy _ _ gr x y S) E'). congruence.
Qed.

Lemma In_nodes_index_simple gr u v :
  is_simple gr = true ->
  In (u, v) (nx.nodes (index_of_graph gr)) <->
  u < v /\ In u (nx.nodes gr) /\ In v (nx.nodes gr).
Proof.
  intros S. rewrite In_nodes_index_of_graph. split.
  - intros [a [b [E Es]]]. apply has_edge_typed_graph_simple in E; auto.
    destruct E as [N [Ia Ib]].
    unfold sorted_node in Es. destruct (Z.leb_spec a b); injection Es as -> ->;
      repeat split; auto; lia.
  - intros [L [Iu Iv]]. exists u, v. split.
    + apply has_edge_typed_graph_simple; auto. repeat split; auto. lia.
    + symmetry. now apply sorted_node_lt.
Qed.

Lemma node_type_index_simple gr u v :
  is_simple gr = true ->
  In (u, v) (nx.nodes (index_of_graph gr)) ->
  nx.node_type (index_of_graph gr) (u, v) = Some (if nx.has_edge gr u v then 1 else 0).
Proof.
  intros S I. apply In_nodes_index_simple in I; auto. destruct I as [L [Iu Iv]].
  assert (E : nx.has_edge (typed_graph gr) u v = true).
  { apply has_edge_typed_graph_simple; auto. repeat split; auto. lia. }
  assert (X := node_type_index_of_graph gr u v E).
  rewrite (sorted_node_lt L) in X. etransitivity; [exact X|].
  now apply edge_type_typed_graph_simple.
Qed.

(** * The claims *)

Unset Implicit Arguments.

(** The degrees [get_bridge_count] collects in the bridge scenario: both
    active edges have two neighbours in the line graph, the inactive edge
    0 - 2 among them. *)
Example path3_degrees :
  (g <- the_graph (constructed (__init__ (Some DEFAULT_DIM) (Some path3))) ;;
   Ok (map snd (degree_dict g [(0, 1); (1, 2)]))) = Ok [2; 2].
Proof. reflexivity. Qed.

(** Whatever the wrapper holds, [get_bridge_count] returns no number. *)
Lemma get_bridge_count_never_returns (self : GraphWrapper) (sample : pyval) :
  exists x, get_bridge_count self sample = Raise x.
Proof.
  unfold get_bridge_count.
  destruct (get_active_edges self) as [active_edges|x]; simpl; eauto.
  destruct (the_graph self) as [g|x]; simpl; eauto.
Qed.

(** C1 (defect of the code).  In the bridge scenario, the path 0 - 1 - 2
    with both of its edges active and the edge 0 - 2 inactive, the claim
    expects the bridge count 1.  [get_bridge_count] returns nothing: it
    divides the [dict_values] view of the degrees by 2 before summing, and
    raises [TypeError]. *)
Theorem bridge_count_path_graph_raises (sample : pyval) :
  get_edge_type (constructed (__init__ (Some DEFAULT_DIM) (Some path3))) (0, 1) = Ok 1 /\
  get_edge_type (constructed (__init__ (Some DEFAULT_DIM) (Some path3))) (1, 2) = Ok 1 /\
  get_edge_type (constructed (__init__ (Some DEFAULT_DIM) (Some path3))) (0, 2) = Ok 0 /\
  get_bridge_count (constructed (__init__ (Some DEFAULT_DIM) (Some path3))) sample
    = Raise TypeError.
Proof. repeat split; vm_compute; reflexivity. Qed.

(** C2, as the claim states it, fails: the integer 2 is neither type, yet
    [set_edge_type] accepts it and stores it. *)
Lemma set_edge_type_stores_two :
  set_edge_type (constructed (__init__ (Some 2) None)) (0, 1) (PyInt 2)
    = ({| _graph := Some [((0, 1), nx.mk_ndata (Some 2) [])] |}, Ok tt) /\
  get_edge_type {| _graph := Some [((0, 1), nx.mk_ndata (Some 2) [])] |} (0, 1) = Ok 2.
Proof. split; reflexivity. Qed.

(** C2 (amended).  On an edge identifier of the index, a new state on
    which [int] raises makes [set_edge_type] and [set_particle] fail and
    leaves the wrapper, hence the edge's type, as it was: with
    [TypeError] when [int] raises [ValueError] (a malformed string, a NaN)
    or [TypeError] ([None]), and with [OverflowError], which the [except]
    clause does not catch, when the new state is an infinite float.  A new
    state that [int] coerces to an integer, inside or outside {0, 1}, is
    accepted and stored. *)
Theorem set_type_rejects_only_uncoercible (self : GraphWrapper) (e : EdgeId) (v : pyval) :
  present self e ->
  (forall x, py_int v = Raise x ->
     ((exists s, v = PyFloat (S754_infinity s)) /\ x = OverflowError /\
      set_edge_type self e v = (self, Raise OverflowError) /\
      set_particle self e v = (self, Raise OverflowError)) \/
     ((x = ValueError \/ x = TypeError) /\
      set_edge_type self e v = (self, Raise TypeError) /\
      set_particle self e v = (self, Raise TypeError))) /\
  (forall z, py_int v = Ok z ->
     exists self', set_edge_type self e v = (self', Ok tt) /\
                   get_edge_type self' e = Ok z).
Proof.
  intros P. split.
  - intros x E. assert (U := set_edge_type_uncoercible self e v E).
    unfold set_particle.
    destruct (py_int_raises _ E) as [-> | [-> | ->]]; simpl in U; auto.
    left. split; auto.
    destruct v as [z|b|s|f|]; simpl in E; try discriminate.
    + apply int_of_string_raises in E. discriminate.
    + destruct f; simpl in E; try discriminate. eauto.
  - intros z E. destruct (present_graph P) as [g [G I]].
    destruct (set_edge_type_coerced self e v G I E) as [g' [S ->]].
    eexists. split; [reflexivity|].
    now apply (@get_edge_type_set self g g' e z G S).
Qed.

Lemma set_type_rejects_only_uncoercible_witness :
  set_particle (constructed (__init__ (Some 3) None)) (0, 1) (PyStr "active")
    = (constructed (__init__ (Some 3) None), Raise TypeError) /\
  set_particle (constructed (__init__ (Some 3) None)) (0, 1) (PyFloat (S754_infinity false))
    = (constructed (__init__ (Some 3) None), Raise OverflowError) /\
  exists self',
    set_edge_type (constructed (__init__ (Some 3) None)) (0, 1) (PyInt 7) = (self', Ok tt) /\
    get_edge_type self' (0, 1) = Ok 7.
Proof.
  assert (P : present (constructed (__init__ (Some 3) None)) (0, 1)).
  { exists [(0, 1); (0, 2); (1, 2)]. split; [reflexivity | simpl; auto]. }
  split; [|split].
  - destruct (proj1 (set_type_rejects_only_uncoercible
                       (constructed (__init__ (Some 3) None)) (0, 1) (PyStr "active") P)
                    ValueError eq_refl) as [[_ [D _]] | [_ [_ H]]];
      [discriminate D | exact H].
  - destruct (proj1 (set_type_rejects_only_uncoercible
                       (constructed (__init__ (Some 3) None)) (0, 1)
                       (PyFloat (S754_infinity false)) P)
                    OverflowError eq_refl) as [[_ [_ [_ H]]] | [[D | D] _]];
      [exact H | discriminate D | discriminate D].
  - apply (proj2 (set_type_rejects_only_uncoercible
                    (constructed (__init__ (Some 3) None)) (0, 1) (PyInt 7) P) 7).
    reflexivity.
Defined.

(** C3, as the claim states it, fails: a node count below 2 is not
    refused; the constructor returns an index without any element. *)
Lemma init_accepts_one_node :
  __init__ (Some 1) None = Ok {| _graph := Some [] |} /\
  __init__ (Some 0) None = Ok {| _graph := Some [] |}.
Proof. split; reflexivity. Qed.

(** C3 (amended).  Built from a node count alone, the constructor
    fails, with the [NetworkXError] of [nx.complete_graph], when the count
    is negative.  From 0 on it succeeds: the elements of the index are the
    pairs [(u, v)] with [0 <= u < v < dim], every one of them typed 0; for
    the counts 0 and 1 there is none. *)
Theorem init_from_node_count (dim : Z) :
  (dim < 0 -> __init__ (Some dim) None = Raise NetworkXError) /\
  (0 <= dim ->
   exists w elements,
     __init__ (Some dim) None = Ok w /\
     get_elements w = Ok elements /\
     (forall u v, In (u, v) elements <-> 0 <= u /\ u < v /\ v < dim) /\
     (forall e, In e elements -> get_edge_type w e = Ok 0) /\
     (dim < 2 -> elements = [])).
Proof.
  split.
  { intros L. unfold __init__, complete_graph, nodes_or_number.
    destruct (Z.ltb_spec dim 0); [reflexivity | lia]. }
  intros L0.
  exists {| _graph := Some (nx.set_node_attributes_all (line_graph (complete_on (range dim))) 0) |}.
  eexists. split; [now apply init_from_count|]. split; [reflexivity|].
  split; [|split].
  - intros u v. apply In_nodes_complete_index.
  - intros e I. unfold get_edge_type, the_graph. simpl.
    rewrite get_set_node_attributes_all.
    rewrite nodes_set_node_attributes_all in I.
    apply In_keys_get in I. destruct I as [d ->]. reflexivity.
  - intros L.
    destruct (nx.nodes (nx.set_node_attributes_all (line_graph (complete_on (range dim))) 0))
      as [|[u v] r] eqn:E; auto.
    assert (I : In (u, v)
                   (nx.nodes (nx.set_node_attributes_all
                                (line_graph (complete_on (range dim))) 0)))
      by (rewrite E; now left).
    apply In_nodes_complete_index in I. lia.
Qed.

Lemma init_from_node_count_witness :
  __init__ (Some (-1)) None = Raise NetworkXError /\
  exists w elements,
    __init__ (Some 3) None = Ok w /\
    get_elements w = Ok elements /\
    (forall u v, In (u, v) elements <-> 0 <= u /\ u < v /\ v < 3) /\
    (forall e, In e elements -> get_edge_type w e = Ok 0) /\
    (3 < 2 -> elements = []).
Proof.
  split.
  - apply (proj1 (init_from_node_count (-1))). lia.
  - apply (proj2 (init_from_node_count 3)). lia.
Defined.

(** C4.  For a simple undirected observed graph [gr], the constructor
    succeeds and the elements of the index are exactly the pairs
    [(u, v)], [u < v], of nodes of [gr], each of them once; an element is
    typed 1 when it is an edge of [gr] and 0 otherwise, and the active
    edges are the elements that are edges of [gr]. *)
Theorem complement_completeness (dim : Z) (gr : nx.Graph node) :
  is_simple gr = true ->
  exists w elements,
    __init__ (Some dim) (Some {| cls := Graph; content := gr |}) = Ok w /\
    get_elements w = Ok elements /\
    NoDup elements /\
    (forall u v, In (u, v) elements <->
                 u < v /\ In u (nx.nodes gr) /\ In v (nx.nodes gr)) /\
    (forall e, In e elements ->
       get_edge_type w e = Ok (if nx.has_edge gr (fst e) (snd e) then 1 else 0)) /\
    get_active_edges w
      = Ok (filter (fun e => nx.has_edge gr (fst e) (snd e)) elements).
Proof.
  intros S.
  exists {| _graph := Some (index_of_graph gr) |}, (nx.nodes (index_of_graph gr)).
  assert (T : forall e, In e (nx.nodes (index_of_graph gr)) ->
              get_edge_type {| _graph := Some (index_of_graph gr) |} e
              = Ok (if nx.has_edge gr (fst e) (snd e) then 1 else 0)).
  { intros [u v] I. eapply get_edge_type_node_type; [reflexivity|].
    now apply node_type_index_simple. }
  split; [now apply init_from_graph|]. split; [reflexivity|].
  split; [apply NoDup_nodes_index_of_graph|].
  split; [intros u v; now apply In_nodes_index_simple|].
  split; [exact T|].
  unfold get_active_edges, get_elements, the_graph. simpl.
  rewrite (filterM_total _ (fun e => (if nx.has_edge gr (fst e) (snd e) then 1 else 0) =? 1)).
  - f_equal. apply filter_ext. intros e. now destruct (nx.has_edge gr (fst e) (snd e)).
  - intros e I. unfold is_active_edge. now rewrite T.
Qed.

Lemma complement_completeness_witness :
  exists w elements,
    __init__ (Some DEFAULT_DIM) (Some {| cls := Graph; content := path_on (range 3) |}) = Ok w /\
    get_elements w = Ok elements /\
    NoDup elements /\
    (forall u v, In (u, v) elements <->
                 u < v /\ In u (nx.nodes (path_on (range 3))) /\ In v (nx.nodes (path_on (range 3)))) /\
    (forall e, In e elements ->
       get_edge_type w e = Ok (if nx.has_edge (path_on (range 3)) (fst e) (snd e) then 1 else 0)) /\
    get_active_edges w
      = Ok (filter (fun e => nx.has_edge (path_on (range 3)) (fst e) (snd e)) elements).
Proof. apply (complement_completeness DEFAULT_DIM (path_on (range 3))). reflexivity. Defined.

(** C5.  On an index, for an edge identifier [e] that is one of its
    elements, [get_edge_neighbourhood] returns the neighbours of [e] in
    the line graph whose type is 1, and only those. *)
Theorem active_neighbourhood_is_filter (self : GraphWrapper) (e : EdgeId) :
  index self -> present self e ->
  exists neighbours,
    graph_neighbors self e = Ok neighbours /\
    get_edge_neighbourhood self e = Ok (filter (active self) neighbours).
Proof.
  intros X P. destruct (@index_well_typed self X) as [g [G W]].
  apply (@present_In self g e G) in P.
  destruct (@In_keys_get _ _ _ g e P) as [d Ed].
  assert (N : graph_neighbors self e = Ok (Dict.keys (nx.n_adj d))).
  { unfold graph_neighbors, the_graph, nx.neighbors. rewrite G. simpl. now rewrite Ed. }
  exists (Dict.keys (nx.n_adj d)). split; auto.
  unfold get_edge_neighbourhood. rewrite N. simpl.
  apply filterM_total. intros n I.
  apply (@is_active_edge_active self g n G W).
  apply (proj1 W e n). apply has_edge_In. unfold nx.adj. now rewrite Ed.
Qed.

Lemma active_neighbourhood_is_filter_witness :
  exists neighbours,
    graph_neighbors (constructed (__init__ (Some DEFAULT_DIM) (Some path3))) (0, 2)
      = Ok neighbours /\
    get_edge_neighbourhood (constructed (__init__ (Some DEFAULT_DIM) (Some path3))) (0, 2)
      = Ok (filter (active (constructed (__init__ (Some DEFAULT_DIM) (Some path3))))
                   neighbours).
Proof.
  apply (active_neighbourhood_is_filter
           (constructed (__init__ (Some DEFAULT_DIM) (Some path3))) (0, 2)).
  - apply (@index_graph DEFAULT_DIM path3 _). reflexivity.
  - exists [(0, 1); (0, 2); (1, 2)]. split; [reflexivity | simpl; auto].
Defined.

(** C6.  Whatever calls to [set_particle] are made, with whatever
    outcome, the elements of the wrapper and the neighbours of every edge
    identifier in the line graph are afterwards what they were before. *)
Theorem adjacency_is_immutable (self : GraphWrapper) (calls : list (EdgeId * pyval)) :
  get_elements (apply_calls self calls) = get_elements self /\
  forall e, graph_neighbors (apply_calls self calls) e = graph_neighbors self e.
Proof.
  unfold apply_calls. revert self.
  induction calls as [|[id v] r IH]; intros self; simpl; auto.
  destruct (IH (fst (set_particle self id v))) as [E N].
  destruct (set_edge_type_frame self id v) as [E' N'].
  unfold set_particle in *. split.
  - now rewrite E.
  - intros e. now rewrite N.
Qed.

(** C7.  Flipping an edge identifier from type 0 to type 1 with
    [set_particle] succeeds; afterwards its type is 1, every other edge
    identifier has the type, or the failure to have one, it had before,
    and the elements and all neighbourhoods are unchanged. *)
Theorem flip_is_isolated (self : GraphWrapper) (e : EdgeId) :
  get_edge_type self e = Ok 0 ->
  exists self',
    set_particle self e (PyInt 1) = (self', Ok tt) /\
    get_edge_type self' e = Ok 1 /\
    (forall e', e' <> e -> get_edge_type self' e' = get_edge_type self e') /\
    (forall e', graph_neighbors self' e' = graph_neighbors self e') /\
    get_elements self' = get_elements self.
Proof.
  intros T.
  assert (P : exists g, _graph self = Some g /\ In e (nx.nodes g)).
  { unfold get_edge_type, the_graph in T.
    destruct (_graph self) as [g|]; [|discriminate]. simpl in T.
    exists g. split; auto.
    destruct (Dict.get g e) as [d|] eqn:E; [|discriminate].
    eapply get_Some_keys; eauto. }
  destruct P as [g [G I]].
  destruct (@set_edge_type_coerced self g e (PyInt 1) 1 G I eq_refl) as [g' [S E]].
  destruct (set_edge_type_frame self e (PyInt 1)) as [El Ne].
  rewrite E in El, Ne. simpl in El, Ne.
  exists {| _graph := Some g' |}. unfold set_particle.
  destruct (@get_edge_type_set self g g' e 1 G S) as [T1 To].
  repeat split; auto.
Qed.

Lemma flip_is_isolated_witness :
  exists self',
    set_particle (constructed (__init__ (Some 3) None)) (0, 1) (PyInt 1) = (self', Ok tt) /\
    get_edge_type self' (0, 1) = Ok 1 /\
    (forall e', e' <> (0, 1) ->
       get_edge_type self' e' = get_edge_type (constructed (__init__ (Some 3) None)) e') /\
    (forall e',
       graph_neighbors self' e' = graph_neighbors (constructed (__init__ (Some 3) None)) e') /\
    get_elements self' = get_elements (constructed (__init__ (Some 3) None)).
Proof.
  apply (flip_is_isolated (constructed (__init__ (Some 3) None)) (0, 1)).
  reflexivity.
Defined.

(** C8 (defect of the code).  For the complete graph on 3 nodes the
    claim expects [get_initial_dim] to return 3.  Its line graph is a
    triangle, which [nx.inverse_line_graph] inverts into the star with
    three branches: [get_initial_dim] returns 4. *)
Theorem initial_dim_of_three_nodes (fuel : nat) :
  get_initial_dim (S fuel) (constructed (__init__ (Some 3) None)) = Some (Ok 4).
Proof. reflexivity. Qed.

Lemma perm2_cases (A : Type) (a b : A) (l : list A) :
  Permutation l [a; b] -> l = [a; b] \/ l = [b; a].
Proof.
  intros P. apply Permutation_sym in P. now apply Permutation_length_2_inv in P.
Qed.

Lemma perm3_cases (A : Type) (a b c : A) (l : list A) :
  Permutation l [a; b; c] ->
  l = [a; b; c] \/ l = [a; c; b] \/ l = [b; a; c] \/
  l = [b; c; a] \/ l = [c; a; b] \/ l = [c; b; a].
Proof.
  intros P. assert (L := Permutation_length P).
  destruct l as [|x [|y [|z [|? ?]]]]; try discriminate.
  assert (I : In a [x; y; z])
    by (eapply Permutation_in; [apply Permutation_sym; eauto | now left]).
  destruct I as [<-|[<-|[<-|[]]]].
  - apply Permutation_cons_inv, perm2_cases in P.
    destruct P as [[= -> ->]|[= -> ->]]; auto.
  - assert (Q : Permutation (y :: [x; z]) (y :: [b; c])).
    { eapply Permutation_trans; [apply perm_swap | exact P]. }
    apply Permutation_cons_inv, perm2_cases in Q.
    destruct Q as [[= -> ->]|[= -> ->]]; auto 7.
  - assert (Q : Permutation (z :: [x; y]) (z :: [b; c])).
    { eapply Permutation_trans; [|exact P].
      eapply Permutation_trans; [apply perm_swap|]. apply perm_skip, perm_swap. }
    apply Permutation_cons_inv, perm2_cases in Q.
    destruct Q as [[= -> ->]|[= -> ->]]; auto 7.
Qed.

Lemma two_keys (V : Type) (d : Dict.t EdgeId V) (a b : EdgeId) :
  Dict.keys d = [a; b] -> exists x y, d = [(a, x); (b, y)].
Proof.
  destruct d as [|[k1 v1] [|[k2 v2] [|? ?]]]; simpl; try discriminate.
  intros [= -> ->]. eauto.
Qed.

(** The outcome does not hang on the order in which the line graph keeps
    its nodes and their neighbours, nor on the attributes: every graph
    with the nodes and the adjacency of the triangle gives 4. *)
Lemma initial_dim_of_triangle_any_order (g : nx.Graph EdgeId) (fuel : nat) :
  Permutation (nx.nodes g) triangle ->
  (forall e, In e triangle ->
     Permutation (Dict.keys (nx.adj g e))
                 (filter (fun n => negb (key_eqb n e)) triangle)) ->
  get_initial_dim (S fuel) {| _graph := Some g |} = Some (Ok 4).
Proof.
  intros P A.
  assert (A1 := A (0, 1) ltac:(simpl; auto)).
  assert (A2 := A (0, 2) ltac:(simpl; auto)).
  assert (A3 := A (1, 2) ltac:(simpl; auto)).
  clear A. simpl in A1, A2, A3.
  apply perm2_cases in A1, A2, A3.
  apply perm3_cases in P.
  destruct g as [|[n1 [t1 d1]] [|[n2 [t2 d2]] [|[n3 [t3 d3]] [|? ?]]]];
    try (simpl in P; intuition discriminate).
  unfold nx.nodes in P. simpl in P.
  destruct P as [P|[P|[P|[P|[P|P]]]]]; injection P as -> -> ->;
    unfold nx.adj in A1, A2, A3; simpl in A1, A2, A3;
    destruct A1 as [A1|A1], A2 as [A2|A2], A3 as [A3|A3];
    apply two_keys in A1, A2, A3;
    destruct A1 as [? [? ->]], A2 as [? [? ->]], A3 as [? [? ->]];
    vm_compute; reflexivity.
Qed.

(** Next to it, the node counts 2, 4 and 5 come back as they went in. *)
Example initial_dim_of_other_counts :
  map (fun k => get_initial_dim 50 (constructed (__init__ (Some k) None))) [2; 4; 5]
  = [Some (Ok 2); Some (Ok 4); Some (Ok 5)].
Proof. vm_compute. reflexivity. Qed.

(** C9.  Handed an observed graph that is directed or a multigraph
    ([DiGraph], [MultiGraph] or [MultiDiGraph]), the constructor raises
    and builds no index; the exception is [TypeError]. *)
Theorem init_rejects_directed_and_multi (dim : Z) (gr : nx_object) :
  isinstance_DiGraph (cls gr) || isinstance_MultiGraph (cls gr) = true ->
  __init__ (Some dim) (Some gr) = Raise TypeError.
Proof. intros E. unfold __init__. now rewrite E. Qed.

Lemma init_rejects_directed_and_multi_witness :
  __init__ (Some DEFAULT_DIM) (Some {| cls := DiGraph; content := path_on (range 3) |})
  = Raise TypeError.
Proof.
  apply (init_rejects_directed_and_multi DEFAULT_DIM
           {| cls := DiGraph; content := path_on (range 3) |}).
  reflexivity.
Defined.

(** C10.  On an edge identifier of the index, when [int(v)] succeeds,
    [set_particle] with [v] succeeds and [get_particle] then returns
    [int(v)], whether or not that integer is 0 or 1. *)
Theorem set_get_roundtrip (self : GraphWrapper) (e : EdgeId) (v : pyval) (z : Z) :
  present self e -> py_int v = Ok z ->
  exists self',
    set_particle self e v = (self', Ok tt) /\ get_particle self' e = Ok z.
Proof.
  intros P E. destruct (@present_graph self e P) as [g [G I]].
  destruct (@set_edge_type_coerced self g e v z G I E) as [g' [S Es]].
  exists {| _graph := Some g' |}. unfold set_particle, get_particle. split; auto.
  now apply (@get_edge_type_set self g g' e z G S).
Qed.

Lemma set_get_roundtrip_witness :
  exists self',
    set_particle (constructed (__init__ (Some 3) None)) (0, 2) (PyStr " -1_7 ")
      = (self', Ok tt) /\
    get_particle self' (0, 2) = Ok (-17).
Proof.
  apply (set_get_roundtrip (constructed (__init__ (Some 3) None)) (0, 2)
           (PyStr " -1_7 ") (-17)).
  - exists [(0, 1); (0, 2); (1, 2)]. split; [reflexivity | simpl; auto].
  - reflexivity.
Defined.

(** * Further properties of the wrapper *)

(** ** Wrappers without a graph, unknown edge identifiers *)

(** X1.  With [dim = None] the constructor stores no graph and does not
    look at [gr], whatever its class; every accessor then raises
    [AttributeError], and so does [set_particle] once the value is
    coerced. *)
Theorem no_graph_wrapper (gr : option nx_object) (e : EdgeId) (sample : pyval)
    (fuel : nat) (v : pyval) (z : Z) :
  py_int v = Ok z ->
  exists w,
    __init__ None gr = Ok w /\
    get_graph w = None /\
    get_elements w = Raise AttributeError /\
    get_edge_type w e = Raise AttributeError /\
    get_particle w e = Raise AttributeError /\
    is_active_edge w e = Raise AttributeError /\
    get_active_edges w = Raise AttributeError /\
    get_edge_count w = Raise AttributeError /\
    get_none_edge_count w = Raise AttributeError /\
    get_edge_neighbourhood w e = Raise AttributeError /\
    get_bridge_count w sample = Raise AttributeError /\
    get_initial_dim fuel w = Some (Raise AttributeError) /\
    set_particle w e v = (w, Raise AttributeError).
Proof.
  intros E. exists {| _graph := None |}.
  repeat (split; [reflexivity|]).
  unfold set_particle, set_edge_type. now rewrite E.
Qed.

Lemma no_graph_wrapper_witness :
  exists w,
    __init__ None (Some {| cls := DiGraph; content := path_on (range 3) |}) = Ok w /\
    get_graph w = None /\
    get_elements w = Raise AttributeError /\
    get_edge_type w (0, 1) = Raise AttributeError /\
    get_particle w (0, 1) = Raise AttributeError /\
    is_active_edge w (0, 1) = Raise AttributeError /\
    get_active_edges w = Raise AttributeError /\
    get_edge_count w = Raise AttributeError /\
    get_none_edge_count w = Raise AttributeError /\
    get_edge_neighbourhood w (0, 1) = Raise AttributeError /\
    get_bridge_count w PyNone = Raise AttributeError /\
    get_initial_dim 5 w = Some (Raise AttributeError) /\
    set_particle w (0, 1) (PyInt 1) = (w, Raise AttributeError).
Proof.
  apply (no_graph_wrapper (Some {| cls := DiGraph; content := path_on (range 3) |})
           (0, 1) PyNone 5%nat (PyInt 1) 1).
  reflexivity.
Defined.

(** X2.  An edge identifier that is not an element of the wrapper's graph:
    reading its type raises [KeyError] and its neighbourhood raises
    [NetworkXError].  [set_particle] coerces the value first: when [int]
    raises, the call raises [TypeError], or [OverflowError] for an
    infinite float, as it does on an element; when [int] accepts the
    value, the call raises [KeyError].  The wrapper is left as it was in
    every case. *)
Theorem unknown_edge_errors (self : GraphWrapper) (elements : list EdgeId) (e : EdgeId)
    (v : pyval) :
  get_elements self = Ok elements -> ~ In e elements ->
  get_edge_type self e = Raise KeyError /\
  get_particle self e = Raise KeyError /\
  is_active_edge self e = Raise KeyError /\
  get_edge_neighbourhood self e = Raise NetworkXError /\
  (forall z, py_int v = Ok z -> set_particle self e v = (self, Raise KeyError)) /\
  (forall x, py_int v = Raise x ->
     (x = OverflowError /\ set_particle self e v = (self, Raise OverflowError)) \/
     ((x = ValueError \/ x = TypeError) /\
      set_particle self e v = (self, Raise TypeError))).
Proof.
  intros E N. unfold get_elements, the_graph in E.
  destruct (_graph self) as [g|] eqn:G; [|discriminate].
  simpl in E. injection E as <-.
  apply dict_get_None in N.
  assert (T : get_edge_type self e = Raise KeyError).
  { unfold get_edge_type, the_graph. rewrite G. simpl. now rewrite N. }
  split; [exact T|]. split; [exact T|].
  split; [unfold is_active_edge; now rewrite T|].
  split.
  { unfold get_edge_neighbourhood, graph_neighbors, the_graph, nx.neighbors.
    rewrite G. simpl. now rewrite N. }
  split.
  - intros z Ez. unfold set_particle, set_edge_type, the_graph, nx.set_node_type.
    now rewrite Ez, G, N.
  - intros x Ex. assert (U := set_edge_type_uncoercible self e v Ex).
    unfold set_particle.
    destruct (py_int_raises _ Ex) as [-> | [-> | ->]]; simpl in U; auto.
Qed.

Lemma unknown_edge_errors_witness :
  (get_edge_type (constructed (__init__ (Some 3) None)) (1, 0) = Raise KeyError /\
   get_particle (constructed (__init__ (Some 3) None)) (1, 0) = Raise KeyError /\
   is_active_edge (constructed (__init__ (Some 3) None)) (1, 0) = Raise KeyError /\
   get_edge_neighbourhood (constructed (__init__ (Some 3) None)) (1, 0)
     = Raise NetworkXError /\
   set_particle (constructed (__init__ (Some 3) None)) (1, 0) (PyInt 1)
     = (constructed (__init__ (Some 3) None), Raise KeyError)) /\
  set_particle (constructed (__init__ (Some 3) None)) (1, 0) (PyFloat S754_nan)
    = (constructed (__init__ (Some 3) None), Raise TypeError) /\
  set_particle (constructed (__init__ (Some 3) None)) (1, 0) (PyFloat (S754_infinity true))
    = (constructed (__init__ (Some 3) None), Raise OverflowError).
Proof.
  assert (E : get_elements (constructed (__init__ (Some 3) None))
              = Ok [(0, 1); (0, 2); (1, 2)]) by reflexivity.
  assert (N : ~ In (1, 0) [(0, 1); (0, 2); (1, 2)]).
  { simpl. intros [H|[H|[H|[]]]]; discriminate H. }
  split; [|split].
  - destruct (unknown_edge_errors (constructed (__init__ (Some 3) None))
                [(0, 1); (0, 2); (1, 2)] (1, 0) (PyInt 1) E N)
      as [T [Pa [A [Nb [K _]]]]].
    repeat (split; [assumption|]). exact (K 1 eq_refl).
  - destruct (unknown_edge_errors (constructed (__init__ (Some 3) None))
                [(0, 1); (0, 2); (1, 2)] (1, 0) (PyFloat S754_nan) E N)
      as [_ [_ [_ [_ [_ R]]]]].
    destruct (R ValueError eq_refl) as [[D _] | [_ H]]; [discriminate D | exact H].
  - destruct (unknown_edge_errors (constructed (__init__ (Some 3) None))
                [(0, 1); (0, 2); (1, 2)] (1, 0) (PyFloat (S754_infinity true)) E N)
      as [_ [_ [_ [_ [_ R]]]]].
    destruct (R OverflowError eq_refl) as [[_ H] | [[D | D] _]];
      [exact H | discriminate D | discriminate D].
Defined.

(** ** What every index satisfies *)

Section AdjDistinct.
Context {K : Type} `{Hashable K}.
Implicit Types (g : nx.Graph K).

Lemma adj_distinct_empty : adj_distinct (@nx.empty K).
Proof. intros u. constructor. Qed.

Lemma adj_distinct_add_node g n : adj_distinct g -> adj_distinct (nx.add_node g n).
Proof. intros D u. rewrite adj_add_node. apply D. Qed.

Lemma adj_distinct_set_adj g u v a : adj_distinct g -> adj_distinct (nx.set_adj g u v a).
Proof.
  intros D x. destruct (in_dec key_dec u (nx.nodes g)) as [I|I].
  - rewrite adj_set_adj by auto. destruct (key_eqb x u); [|apply D].
    apply dict_NoDup_keys_set, D.
  - unfold nx.set_adj. apply dict_get_None in I. unfold nx.nodes in I.
    rewrite I. apply D.
Qed.

Lemma adj_distinct_add_edge upd g u v : adj_distinct g -> adj_distinct (nx.add_edge upd g u v).
Proof.
  intros D. unfold nx.add_edge.
  now apply adj_distinct_set_adj, adj_distinct_set_adj, adj_distinct_add_node,
    adj_distinct_add_node.
Qed.

Lemma adj_distinct_add_all (A : Type) (fu : A -> option Z -> option Z) (pu pv : A -> K)
    (l : list A) g :
  adj_distinct g -> adj_distinct (add_all fu pu pv g l).
Proof.
  unfold add_all. revert g; induction l as [|a l IH]; intros g D; simpl; auto.
  apply IH. now apply adj_distinct_add_edge.
Qed.

Lemma adj_distinct_add_nodes_from ns g :
  adj_distinct g -> adj_distinct (nx.add_nodes_from g ns).
Proof.
  unfold nx.add_nodes_from. revert g; induction ns as [|n r IH]; intros g D; simpl; auto.
  apply IH. now apply adj_distinct_add_node.
Qed.

Lemma adj_distinct_copy g : adj_distinct (nx.copy g).
Proof.
  rewrite copy_add_all. apply adj_distinct_add_all.
  intros u. unfold nx.adj.
  destruct (Dict.get (copy_base g) u) as [d|] eqn:E; [|constructor].
  apply dict_get_Some_In, In_build_inv in E.
  destruct E as [[]|[nd [_ [_ [= <-]]]]]. constructor.
Qed.

Lemma adj_set_edge_attributes g t u :
  nx.adj (nx.set_edge_attributes g t) u
  = map (fun va => (fst va, Some t)) (nx.adj g u).
Proof.
  unfold nx.adj, nx.set_edge_attributes.
  rewrite (get_map_values
             (fun d => nx.mk_ndata (nx.n_type d)
                         (map (fun va => (fst va, Some t)) (nx.n_adj d)))).
  now destruct (Dict.get g u).
Qed.

Lemma adj_distinct_set_edge_attributes g t :
  adj_distinct g -> adj_distinct (nx.set_edge_attributes g t).
Proof.
  intros D u. rewrite adj_set_edge_attributes.
  unfold Dict.keys. rewrite map_map. simpl. apply D.
Qed.

End AdjDistinct.

Lemma adj_distinct_typed_graph gr : adj_distinct (typed_graph gr).
Proof.
  unfold typed_graph. rewrite add_edges_from_add_all.
  apply adj_distinct_add_all, adj_distinct_set_edge_attributes, adj_distinct_copy.
Qed.

Lemma adj_distinct_complete_on nodes : adj_distinct (complete_on nodes).
Proof.
  unfold complete_on.
  destruct (1 <? Z.of_nat (List.length nodes)).
  - rewrite add_edges_from_add_all.
    apply adj_distinct_add_all, adj_distinct_add_nodes_from, adj_distinct_empty.
  - apply adj_distinct_add_nodes_from, adj_distinct_empty.
Qed.

Lemma sorted_node_inj u v w : sorted_node u v = sorted_node u w -> v = w.
Proof.
  intros E. apply sorted_node_eq in E. destruct E as [[_ E]|[E1 E2]]; congruence.
Qed.

Lemma NoDup_incident G u : adj_distinct G -> NoDup (incident G u).
Proof.
  intros D. unfold incident, nx.edges_at. rewrite map_map. simpl.
  specialize (D u). induction (Dict.keys (nx.adj G u)) as [|v r IH]; simpl.
  - constructor.
  - inversion D as [|? ? N D']; subst. constructor; auto.
    intros I. apply in_map_iff in I. destruct I as [w [E I]].
    apply sorted_node_inj in E. congruence.
Qed.

(** The pairs [clique_edges] lists join exactly the distinct members. *)
Lemma clique_edges_joins l a b :
  NoDup l ->
  (exists p, In p (clique_edges l) /\ joins fst snd p a b) <->
  In a l /\ In b l /\ a <> b.
Proof.
  unfold joins. induction l as [|x r IH]; intros ND; simpl.
  - split; [intros [p [[] _]] | tauto].
  - inversion ND as [|? ? Nx ND']; subst. specialize (IH ND'). split.
    + intros [p [I J]]. apply in_app_iff in I. destruct I as [I|I].
      * apply in_map_iff in I. destruct I as [y [<- I]].
        assert (x <> y) by congruence.
        destruct (sorted_edge_ends x y) as [R|R]; rewrite R in J; simpl in J;
          destruct J as [[-> ->]|[-> ->]]; auto.
      * destruct IH as [IH _]. destruct IH as [Ia [Ib N]]; eauto.
    + intros [Ia [Ib N]].
      destruct Ia as [<-|Ia]; destruct Ib as [<-|Ib]; try congruence.
      * exists (_sorted_edge x b). split.
        -- apply in_app_iff. left. now apply in_map.
        -- destruct (sorted_edge_ends x b) as [R|R]; rewrite R; simpl; auto.
      * exists (_sorted_edge x a). split.
        -- apply in_app_iff. left. now apply in_map.
        -- destruct (sorted_edge_ends x a) as [R|R]; rewrite R; simpl; auto.
      * destruct IH as [_ IH]. destruct IH as [p [I J]]; auto.
        exists p. split; auto. apply in_app_iff. now right.
Qed.

Lemma lg_fold_edge_data G l acc x y :
  edge_data (fst (fold_left (lg_step G) l acc)) x y = edge_data (fst acc) x y.
Proof.
  revert acc; induction l as [|u r IH]; intros acc; simpl; auto.
  rewrite IH. unfold lg_step. cbn [fst snd].
  destruct (map _ (nx.edges_at G u)) as [|a [|b t]]; auto.
  apply edge_data_add_node.
Qed.

Lemma lg_fold_adj_distinct G l acc :
  adj_distinct (fst acc) -> adj_distinct (fst (fold_left (lg_step G) l acc)).
Proof.
  revert acc; induction l as [|u r IH]; intros acc D; simpl; auto.
  apply IH. unfold lg_step. cbn [fst snd].
  destruct (map _ (nx.edges_at G u)) as [|a [|b t]]; auto.
  now apply adj_distinct_add_node.
Qed.

Lemma adj_distinct_line_graph G : adj_distinct (line_graph G).
Proof.
  unfold line_graph. rewrite add_edges_from_add_all.
  apply adj_distinct_add_all, lg_fold_adj_distinct, adj_distinct_empty.
Qed.

(** Two nodes of the line graph are adjacent when they are distinct edges
    met at a common node. *)
Lemma has_edge_line_graph G a b :
  adj_distinct G ->
  nx.has_edge (line_graph G) a b = true <->
  a <> b /\ exists u, In a (incident G u) /\ In b (incident G u).
Proof.
  intros D. unfold line_graph. rewrite add_edges_from_add_all, has_edge_add_all.
  rewrite has_edge_data, lg_fold_edge_data. simpl. split.
  - intros [E|[p [I J]]]; [now elim E|].
    apply lg_fold_edges in I. simpl in I. destruct I as [[]|[u [_ I]]].
    assert (X : In a (incident G u) /\ In b (incident G u) /\ a <> b).
    { apply clique_edges_joins; [now apply NoDup_incident | eauto]. }
    destruct X as [Ia [Ib N]]. eauto.
  - intros [N [u [Ia Ib]]]. right.
    assert (X : exists p, In p (clique_edges (incident G u)) /\ joins fst snd p a b).
    { apply clique_edges_joins; [now apply NoDup_incident | auto]. }
    destruct X as [p [I J]]. exists p. split; auto.
    apply lg_fold_edges. right. exists u. split; auto.
    apply In_incident in Ia. destruct Ia as [v [E _]].
    eapply has_edge_node; eauto.
Qed.

Lemma index_graph_ok_line (G : nx.Graph node) (L : nx.Graph EdgeId) :
  adj_distinct G -> well_typed L ->
  nx.nodes L = nx.nodes (line_graph G) ->
  (forall x, nx.adj L x = nx.adj (line_graph G) x) ->
  index_graph_ok L.
Proof.
  intros D W N A.
  assert (E : forall a b, nx.has_edge L a b = nx.has_edge (line_graph G) a b).
  { intros a b. unfold nx.has_edge. now rewrite A. }
  split; [exact W|]. split; [|split; [|split]].
  - rewrite N. apply line_graph_inv.
  - intros u. rewrite A. apply adj_distinct_line_graph.
  - intros e. destruct (nx.has_edge L e e) eqn:X; auto.
    rewrite E in X. apply has_edge_line_graph in X; auto.
    destruct X as [X _]. now elim X.
  - intros a b. rewrite !E. intros X.
    apply has_edge_line_graph in X; auto. apply has_edge_line_graph; auto.
    destruct X as [X [u [Ia Ib]]]. split; [congruence | eauto].
Qed.

Lemma index_graph_ok_set_node_type g g' n t :
  index_graph_ok g -> nx.set_node_type g n t = Ok g' -> index_graph_ok g'.
Proof.
  intros [W [N [D [I S]]]] X.
  assert (W' : well_typed g') by (eapply well_typed_set_node_type; eauto).
  apply set_node_type_inv in X. destruct X as [_ [En [Ea _]]].
  assert (E : forall a b, nx.has_edge g' a b = nx.has_edge g a b).
  { intros a b. unfold nx.has_edge. now rewrite Ea. }
  split; [exact W'|]. split; [|split; [|split]].
  - now rewrite En.
  - intros u. rewrite Ea. apply D.
  - intros e. rewrite E. apply I.
  - intros a b. rewrite !E. apply S.
Qed.

Lemma index_ok w : index w -> exists g, _graph w = Some g /\ index_graph_ok g.
Proof.
  induction 1 as [dim w E|dim gr w E|w id v I [g [G W]]].
  - apply init_count_inv in E. destruct E as [_ ->].
    eexists. split; [reflexivity|].
    apply (index_graph_ok_line (complete_on (range dim))).
    + apply adj_distinct_complete_on.
    + apply well_typed_complete.
    + apply nodes_set_node_attributes_all.
    + intros x. apply adj_set_node_attributes_all.
  - apply init_graph_inv in E. destruct E as [_ ->].
    eexists. split; [reflexivity|].
    apply (index_graph_ok_line (typed_graph (content gr))).
    + apply adj_distinct_typed_graph.
    + apply well_typed_index_of_graph.
    + apply nodes_index_of_graph.
    + intros x. apply adj_index_of_graph.
  - unfold set_particle.
    destruct (set_edge_type_cases w id v) as [-> | [g0 [g' [z [G0 [S ->]]]]]]; eauto.
    exists g'. split; auto. rewrite G in G0. injection G0 as <-.
    eapply index_graph_ok_set_node_type; eauto.
Qed.

Lemma index_apply_calls w calls : index w -> index (apply_calls w calls).
Proof.
  unfold apply_calls. revert w.
  induction calls as [|[id v] r IH]; intros w I; simpl; auto.
  apply IH. now apply index_set.
Qed.

Lemma get_edge_type_as_node_type self g e :
  _graph self = Some g ->
  get_edge_type self e
  = match nx.node_type g e with Some v => Ok v | None => Raise KeyError end.
Proof.
  intros G. unfold get_edge_type, the_graph, nx.node_type. rewrite G. simpl.
  now destruct (Dict.get g e).
Qed.

Lemma active_as_node_type self g e :
  _graph self = Some g ->
  active self e = match nx.node_type g e with Some v => v =? 1 | None => false end.
Proof.
  intros G. unfold active. rewrite (get_edge_type_as_node_type self g e G).
  now destruct (nx.node_type g e).
Qed.

Lemma inactive_as_node_type self g e :
  _graph self = Some g ->
  inactive self e = match nx.node_type g e with Some v => v =? 0 | None => false end.
Proof.
  intros G. unfold inactive. rewrite (get_edge_type_as_node_type self g e G).
  now destruct (nx.node_type g e).
Qed.

(** Counting the type values that pass a test is counting the nodes whose
    type passes it. *)
Lemma length_filter_types (p : Z -> bool) (f : EdgeId -> option Z)
    (l : list (EdgeId * nx.ndata EdgeId)) :
  (forall nd, In nd l -> f (fst nd) = nx.n_type (snd nd)) ->
  List.length
    (filter p (flat_map (fun nd => match nx.n_type (snd nd) with
                                   | Some v => [v]
                                   | None => []
                                   end) l))
  = List.length
      (filter (fun e => match f e with Some v => p v | None => false end) (map fst l)).
Proof.
  induction l as [|nd r IH]; intros F; simpl; auto.
  rewrite filter_app, length_app, IH by (intros x I; apply F; now right).
  rewrite (F nd) by (now left).
  destruct (nx.n_type (snd nd)) as [v|]; simpl; auto.
  destruct (p v); reflexivity.
Qed.

Lemma count_node_types (p : Z -> bool) (g : nx.Graph EdgeId) :
  NoDup (nx.nodes g) ->
  Z.of_nat (List.length (filter p (node_types g)))
  = count_of (fun e => match nx.node_type g e with Some v => p v | None => false end)
             (nx.nodes g).
Proof.
  intros N. unfold count_of, node_types, nx.nodes, Dict.keys. f_equal.
  apply length_filter_types. intros [k d] I. simpl.
  unfold nx.node_type. now rewrite (@dict_In_get _ _ _ g k d N I).
Qed.

Lemma filter_ext_in_list (A : Type) (f h : A -> bool) (l : list A) :
  (forall x, In x l -> f x = h x) -> filter f l = filter h l.
Proof.
  induction l as [|a r IH]; intros E; simpl; auto.
  rewrite (E a) by (now left). rewrite IH by (intros x I; apply E; now right).
  reflexivity.
Qed.

Lemma count_of_disjoint (f h : EdgeId -> bool) (l : list EdgeId) :
  (forall x, f x && h x = false) ->
  count_of f l + count_of h l <= Z.of_nat (List.length l).
Proof.
  intros D. unfold count_of. induction l as [|a r IH]; cbn [filter List.length]; [lia|].
  specialize (D a). destruct (f a), (h a); try discriminate;
    cbn [List.length]; lia.
Qed.

Lemma edge_counts self g :
  _graph self = Some g -> NoDup (nx.nodes g) ->
  get_edge_count self = Ok (count_of (active self) (nx.nodes g)) /\
  get_none_edge_count self = Ok (count_of (inactive self) (nx.nodes g)).
Proof.
  intros G N. unfold get_edge_count, get_none_edge_count, the_graph. rewrite G. simpl.
  rewrite !count_node_types by auto. unfold count_of. split; do 3 f_equal.
  - apply filter_ext_in_list. intros x _. symmetry. now apply active_as_node_type.
  - apply filter_ext_in_list. intros x _. symmetry. now apply inactive_as_node_type.
Qed.

Lemma active_edges_filter self g :
  _graph self = Some g -> well_typed g ->
  get_active_edges self = Ok (filter (active self) (nx.nodes g)).
Proof.
  intros G W. unfold get_active_edges, get_elements, the_graph. rewrite G. simpl.
  apply filterM_total. intros x I. eapply is_active_edge_active; eauto.
Qed.

(** ** Types, active edges and counts on an index *)

(** X3.  On every index (built by the constructor, then changed by any
    calls of [set_particle]) the elements are distinct, each has a type,
    so that [get_edge_type], [get_particle] and [is_active_edge] do not
    raise on it, and [get_active_edges] returns the elements whose type is
    1, in the order of [get_elements]. *)
Theorem active_edges_of_an_index (self : GraphWrapper) :
  index self ->
  exists elements,
    get_elements self = Ok elements /\
    NoDup elements /\
    (forall e, In e elements ->
       exists t, get_edge_type self e = Ok t /\ get_particle self e = Ok t /\
                 is_active_edge self e = Ok (t =? 1)) /\
    get_active_edges self = Ok (filter (active self) elements).
Proof.
  intros X. destruct (index_ok self X) as [g [G [W [N _]]]].
  exists (nx.nodes g). split.
  { unfold get_elements, the_graph. now rewrite G. }
  split; [exact N|]. split.
  - intros e I. destruct W as [_ T]. destruct (T e I) as [t Et].
    assert (E : get_edge_type self e = Ok t) by (eapply get_edge_type_node_type; eauto).
    exists t. unfold get_particle, is_active_edge. rewrite E. auto.
  - now apply active_edges_filter.
Qed.

Lemma active_edges_of_an_index_witness :
  exists elements,
    get_elements (constructed (__init__ (Some DEFAULT_DIM) (Some path3))) = Ok elements /\
    NoDup elements /\
    (forall e, In e elements ->
       exists t,
         get_edge_type (constructed (__init__ (Some DEFAULT_DIM) (Some path3))) e = Ok t /\
         get_particle (constructed (__init__ (Some DEFAULT_DIM) (Some path3))) e = Ok t /\
         is_active_edge (constructed (__init__ (Some DEFAULT_DIM) (Some path3))) e
           = Ok (t =? 1)) /\
    get_active_edges (constructed (__init__ (Some DEFAULT_DIM) (Some path3)))
      = Ok (filter (active (constructed (__init__ (Some DEFAULT_DIM) (Some path3))))
                   elements).
Proof.
  apply (active_edges_of_an_index (constructed (__init__ (Some DEFAULT_DIM) (Some path3)))).
  apply (index_graph DEFAULT_DIM path3). reflexivity.
Defined.

(** X4.  On every index [get_edge_count] is the number of elements whose
    type is 1, which is the length of [get_active_edges], and
    [get_none_edge_count] is the number of elements whose type is 0;
    together they never exceed the number of elements. *)
Theorem counts_of_an_index (self : GraphWrapper) :
  index self ->
  exists elements actives,
    get_elements self = Ok elements /\
    get_active_edges self = Ok actives /\
    get_edge_count self = Ok (Z.of_nat (List.length actives)) /\
    get_edge_count self = Ok (count_of (active self) elements) /\
    get_none_edge_count self = Ok (count_of (inactive self) elements) /\
    count_of (active self) elements + count_of (inactive self) elements
      <= Z.of_nat (List.length elements).
Proof.
  intros X. destruct (index_ok self X) as [g [G [W [N _]]]].
  destruct (edge_counts self g G N) as [E1 E0].
  exists (nx.nodes g), (filter (active self) (nx.nodes g)).
  split; [unfold get_elements, the_graph; now rewrite G|].
  split; [now apply active_edges_filter|].
  split; [exact E1|]. split; [exact E1|]. split; [exact E0|].
  apply count_of_disjoint. intros e. unfold active, inactive.
  destruct (get_edge_type self e) as [t|x]; auto.
  destruct (Z.eqb_spec t 1), (Z.eqb_spec t 0); auto. lia.
Qed.

Lemma counts_of_an_index_witness :
  exists elements actives,
    get_elements (constructed (__init__ (Some DEFAULT_DIM) (Some path3))) = Ok elements /\
    get_active_edges (constructed (__init__ (Some DEFAULT_DIM) (Some path3))) = Ok actives /\
    get_edge_count (constructed (__init__ (Some DEFAULT_DIM) (Some path3)))
      = Ok (Z.of_nat (List.length actives)) /\
    get_edge_count (constructed (__init__ (Some DEFAULT_DIM) (Some path3)))
      = Ok (count_of (active (constructed (__init__ (Some DEFAULT_DIM) (Some path3))))
                     elements) /\
    get_none_edge_count (constructed (__init__ (Some DEFAULT_DIM) (Some path3)))
      = Ok (count_of (inactive (constructed (__init__ (Some DEFAULT_DIM) (Some path3))))
                     elements) /\
    count_of (active (constructed (__init__ (Some DEFAULT_DIM) (Some path3)))) elements
    + count_of (inactive (constructed (__init__ (Some DEFAULT_DIM) (Some path3)))) elements
      <= Z.of_nat (List.length elements).
Proof.
  apply (counts_of_an_index (constructed (__init__ (Some DEFAULT_DIM) (Some path3)))).
  apply (index_graph DEFAULT_DIM path3). reflexivity.
Defined.

(** X5.  [get_bridge_count] returns a number on no index: whatever the
    types and whatever [sample], the division of the degree view raises
    [TypeError]. *)
Theorem bridge_count_raises_on_every_index (self : GraphWrapper) (sample : pyval) :
  index self -> get_bridge_count self sample = Raise TypeError.
Proof.
  intros X. destruct (index_ok self X) as [g [G [W _]]].
  unfold get_bridge_count. rewrite (active_edges_filter self g G W). simpl.
  unfold the_graph. now rewrite G.
Qed.

Lemma bridge_count_raises_on_every_index_witness :
  get_bridge_count (fst (set_particle (constructed (__init__ (Some 4) None)) (0, 1) (PyInt 1)))
                   PyNone
  = Raise TypeError.
Proof.
  apply (bridge_count_raises_on_every_index
           (fst (set_particle (constructed (__init__ (Some 4) None)) (0, 1) (PyInt 1)))
           PyNone).
  apply index_set. apply (index_complete 4). reflexivity.
Defined.

(** ** How calls of [set_particle] compose *)

Section DictSet.
Context {K V : Type} `{Hashable K}.
Implicit Types (d : Dict.t K V) (k : K) (v : V).

Lemma dict_set_set d k a b : Dict.set (Dict.set d k a) k b = Dict.set d k b.
Proof.
  induction d as [|[k' v'] r IH]; simpl.
  - now rewrite key_eqb_refl.
  - destruct (key_eqb k k') eqn:E; simpl; rewrite E; [reflexivity | now rewrite IH].
Qed.

Lemma dict_set_same d k v : Dict.get d k = Some v -> Dict.set d k v = d.
Proof.
  induction d as [|[k' v'] r IH]; simpl; [discriminate|].
  destruct (key_eqb k k') eqn:E.
  - now intros [= ->].
  - intros G. now rewrite IH.
Qed.

Lemma dict_set_comm d k k' a b :
  k <> k' -> In k (Dict.keys d) -> In k' (Dict.keys d) ->
  Dict.set (Dict.set d k a) k' b = Dict.set (Dict.set d k' b) k a.
Proof.
  intros N. induction d as [|[k0 v0] r IH]; simpl; [tauto|].
  intros I I'.
  destruct (key_eqb_spec k k0) as [->|N0], (key_eqb_spec k' k0) as [->|N0']; simpl.
  - congruence.
  - rewrite key_eqb_refl, (key_eqb_neq N0'). reflexivity.
  - rewrite key_eqb_refl, (key_eqb_neq N0). reflexivity.
  - rewrite (key_eqb_neq N0), (key_eqb_neq N0').
    rewrite IH; auto.
    + destruct I; [congruence | auto].
    + destruct I'; [congruence | auto].
Qed.

End DictSet.

(** The wrapper a call leaves, in one expression. *)
Lemma set_edge_type_fst self e v :
  fst (set_edge_type self e v)
  = match py_int v, _graph self with
    | Ok z, Some g =>
        match Dict.get g e with
        | Some d => {| _graph := Some (Dict.set g e (nx.mk_ndata (Some z) (nx.n_adj d))) |}
        | None => self
        end
    | _, _ => self
    end.
Proof.
  unfold set_edge_type, the_graph, nx.set_node_type.
  destruct (py_int v) as [z|[]]; auto.
  destruct (_graph self) as [g|]; auto.
  destruct (Dict.get g e); auto.
Qed.

(** The outcome of a call, in one expression. *)
Lemma set_edge_type_snd self e v :
  snd (set_edge_type self e v)
  = match py_int v, _graph self with
    | Ok z, Some g =>
        match Dict.get g e with
        | Some d => Ok tt
        | None => Raise KeyError
        end
    | Ok z, None => Raise AttributeError
    | Raise x, _ => Raise (reraised x)
    end.
Proof.
  unfold set_edge_type, the_graph, nx.set_node_type.
  destruct (py_int v) as [z|x] eqn:E.
  - destruct (_graph self) as [g|]; auto. destruct (Dict.get g e); auto.
  - now destruct x.
Qed.

Lemma count_of_change (f h : EdgeId -> bool) (l : list EdgeId) (e : EdgeId) :
  NoDup l -> In e l -> (forall x, x <> e -> h x = f x) ->
  count_of h l = count_of f l - b2z (f e) + b2z (h e).
Proof.
  intros N I E. unfold count_of. induction l as [|a r IH]; [destruct I|].
  inversion N as [|? ? Na Nr]; subst. cbn [filter].
  destruct (key_eqb_spec a e) as [->|Ne].
  - assert (X : filter h r = filter f r).
    { apply filter_ext_in_list. intros x Ix. apply E. congruence. }
    rewrite X. destruct (f e), (h e); cbn [List.length b2z]; lia.
  - rewrite (E a Ne).
    assert (Ie : In e r) by (destruct I; [congruence | auto]).
    specialize (IH Nr Ie).
    destruct (f a); cbn [List.length]; lia.
Qed.

(** X6.  A call of [set_particle] with an integer, a boolean, a string, a
    float or [None] either succeeds, and then the edge identifier was an
    element, the value was one [int] accepts and the identifier's type is
    now that integer, or it raises [TypeError], [OverflowError],
    [AttributeError] or [KeyError] and leaves the wrapper exactly as it
    was; it never raises [ValueError]. *)
Theorem set_particle_outcomes (self : GraphWrapper) (e : EdgeId) (v : pyval) :
  (exists self' z,
     set_particle self e v = (self', Ok tt) /\ present self e /\
     py_int v = Ok z /\ get_particle self' e = Ok z) \/
  (exists x,
     set_particle self e v = (self, Raise x) /\
     (x = TypeError \/ x = OverflowError \/ x = AttributeError \/ x = KeyError)).
Proof.
  unfold set_particle, get_particle.
  destruct (py_int v) as [z|x] eqn:E.
  - destruct (_graph self) as [g|] eqn:G.
    + destruct (Dict.get g e) as [d|] eqn:D.
      * left. exists {| _graph := Some (Dict.set g e (nx.mk_ndata (Some z) (nx.n_adj d))) |}, z.
        split; [|split; [|split; auto]].
        -- unfold set_edge_type, the_graph, nx.set_node_type. now rewrite E, G, D.
        -- apply (proj2 (@present_In self g e G)). eapply get_Some_keys; eauto.
        -- unfold get_edge_type, the_graph. simpl. now rewrite dict_get_set_eq.
      * right. exists KeyError. split; auto.
        unfold set_edge_type, the_graph, nx.set_node_type. now rewrite E, G, D.
    + right. exists AttributeError. split; auto.
      unfold set_edge_type, the_graph. now rewrite E, G.
  - right. exists (reraised x). split; [eapply set_edge_type_uncoercible; eauto|].
    destruct (py_int_raises _ E) as [-> | [-> | ->]]; simpl; auto.
Qed.

(** X7.  Writing to an element the type it already has changes nothing:
    the call succeeds and the wrapper is the one it was. *)
Theorem set_particle_same_type (self : GraphWrapper) (e : EdgeId) (t : Z) :
  get_particle self e = Ok t -> set_particle self e (PyInt t) = (self, Ok tt).
Proof.
  unfold get_particle, get_edge_type, set_particle, set_edge_type, the_graph,
    nx.set_node_type. simpl.
  destruct self as [[g|]]; simpl; [|discriminate].
  destruct (Dict.get g e) as [[ty a]|] eqn:D; [|discriminate]. simpl.
  destruct ty as [t'|]; [|discriminate]. intros [= ->].
  now rewrite (dict_set_same g e _ D).
Qed.

Lemma set_particle_same_type_witness :
  set_particle (constructed (__init__ (Some DEFAULT_DIM) (Some path3))) (1, 2) (PyInt 1)
  = (constructed (__init__ (Some DEFAULT_DIM) (Some path3)), Ok tt).
Proof.
  apply (set_particle_same_type (constructed (__init__ (Some DEFAULT_DIM) (Some path3)))
           (1, 2) 1).
  reflexivity.
Defined.

(** X8.  Of two successive writes to the same element, the second being
    of a value [int] accepts, only the second counts: the wrapper is the
    one the second write alone would leave, whether the first write
    succeeded or not. *)
Theorem last_write_wins (self : GraphWrapper) (e : EdgeId) (v1 v2 : pyval) (z : Z) :
  present self e -> py_int v2 = Ok z ->
  apply_calls self [(e, v1); (e, v2)] = apply_calls self [(e, v2)] /\
  get_particle (apply_calls self [(e, v1); (e, v2)]) e = Ok z.
Proof.
  intros P E2. destruct (@present_graph self e P) as [g [G I]].
  destruct (@In_keys_get _ _ _ g e I) as [d D].
  assert (L : apply_calls self [(e, v1); (e, v2)] = apply_calls self [(e, v2)]).
  { unfold apply_calls, set_particle. simpl.
    rewrite (set_edge_type_fst self e v1).
    destruct (py_int v1) as [z1|x]; [|reflexivity].
    rewrite G, D. rewrite !set_edge_type_fst. simpl.
    rewrite E2, G, D, dict_get_set_eq. simpl. now rewrite dict_set_set. }
  split; [exact L|]. rewrite L.
  unfold apply_calls, set_particle. simpl. rewrite set_edge_type_fst, E2, G, D.
  unfold get_particle, get_edge_type, the_graph. simpl. now rewrite dict_get_set_eq.
Qed.

Lemma last_write_wins_witness :
  apply_calls (constructed (__init__ (Some 3) None)) [((0, 2), PyInt 5); ((0, 2), PyBool true)]
  = apply_calls (constructed (__init__ (Some 3) None)) [((0, 2), PyBool true)] /\
  get_particle
    (apply_calls (constructed (__init__ (Some 3) None))
                 [((0, 2), PyInt 5); ((0, 2), PyBool true)]) (0, 2) = Ok 1.
Proof.
  apply (last_write_wins (constructed (__init__ (Some 3) None)) (0, 2)
           (PyInt 5) (PyBool true) 1).
  - exists [(0, 1); (0, 2); (1, 2)]. split; [reflexivity | simpl; auto].
  - reflexivity.
Defined.

(** X9.  Writes to two different edge identifiers do not interfere: the
    wrapper they leave is the same in either order, and the outcome of
    each call is the one it has alone, whatever the values and whether or
    not the identifiers are elements. *)
Theorem writes_to_distinct_edges_commute (self : GraphWrapper) (e1 e2 : EdgeId)
    (v1 v2 : pyval) :
  e1 <> e2 ->
  apply_calls self [(e1, v1); (e2, v2)] = apply_calls self [(e2, v2); (e1, v1)] /\
  snd (set_particle (fst (set_particle self e1 v1)) e2 v2) = snd (set_particle self e2 v2) /\
  snd (set_particle (fst (set_particle self e2 v2)) e1 v1) = snd (set_particle self e1 v1).
Proof.
  intros N. unfold apply_calls, set_particle. simpl.
  rewrite !set_edge_type_snd, !set_edge_type_fst.
  destruct (py_int v1) as [z1|x1], (py_int v2) as [z2|x2]; auto.
  destruct (_graph self) as [g|] eqn:G; simpl; [|now rewrite G].
  destruct (Dict.get g e1) as [d1|] eqn:D1, (Dict.get g e2) as [d2|] eqn:D2;
      simpl; rewrite ?G, ?D1, ?D2; simpl;
      rewrite ?(dict_get_set_neq g _ N), ?(dict_get_set_neq g _ (not_eq_sym N)),
        ?D1, ?D2; auto.
    split; auto. do 2 f_equal.
    apply dict_set_comm; auto; eapply get_Some_keys; eauto.
Qed.

Lemma writes_to_distinct_edges_commute_witness :
  apply_calls (constructed (__init__ (Some 3) None)) [((0, 1), PyInt 1); ((7, 8), PyStr "x")]
  = apply_calls (constructed (__init__ (Some 3) None)) [((7, 8), PyStr "x"); ((0, 1), PyInt 1)] /\
  snd (set_particle (fst (set_particle (constructed (__init__ (Some 3) None)) (0, 1) (PyInt 1)))
                    (7, 8) (PyStr "x"))
  = snd (set_particle (constructed (__init__ (Some 3) None)) (7, 8) (PyStr "x")) /\
  snd (set_particle (fst (set_particle (constructed (__init__ (Some 3) None)) (7, 8) (PyStr "x")))
                    (0, 1) (PyInt 1))
  = snd (set_particle (constructed (__init__ (Some 3) None)) (0, 1) (PyInt 1)).
Proof.
  apply (writes_to_distinct_edges_commute (constructed (__init__ (Some 3) None))
           (0, 1) (7, 8) (PyInt 1) (PyStr "x")).
  discriminate.
Defined.

(** X10.  On an index, a successful write of the integer [z] to an
    element of type [t] moves the two counts by that write alone:
    [get_edge_count] loses one when [t] was 1 and gains one when [z] is 1,
    [get_none_edge_count] likewise for 0. *)
Theorem set_particle_moves_counts (self : GraphWrapper) (e : EdgeId) (v : pyval)
    (t z n1 n0 : Z) :
  index self -> get_particle self e = Ok t -> py_int v = Ok z ->
  get_edge_count self = Ok n1 -> get_none_edge_count self = Ok n0 ->
  snd (set_particle self e v) = Ok tt /\
  get_edge_count (fst (set_particle self e v))
    = Ok (n1 - b2z (t =? 1) + b2z (z =? 1)) /\
  get_none_edge_count (fst (set_particle self e v))
    = Ok (n0 - b2z (t =? 0) + b2z (z =? 0)).
Proof.
  intros X T E C1 C0. unfold get_particle in T.
  destruct (index_ok self X) as [g [G [_ [N _]]]].
  assert (I : In e (nx.nodes g)).
  { unfold get_edge_type, the_graph in T. rewrite G in T. simpl in T.
    destruct (Dict.get g e) eqn:D; [|discriminate]. eapply get_Some_keys; eauto. }
  destruct (@set_edge_type_coerced self g e v z G I E) as [g' [S R]].
  unfold set_particle. rewrite R. simpl. split; [reflexivity|].
  destruct (@get_edge_type_set self g g' e z G S) as [Te To].
  assert (N' : NoDup (nx.nodes g')).
  { apply set_node_type_inv in S. destruct S as [_ [-> _]]. exact N. }
  assert (En : nx.nodes g' = nx.nodes g).
  { apply set_node_type_inv in S. tauto. }
  destruct (edge_counts self g G N) as [A1 A0].
  destruct (edge_counts {| _graph := Some g' |} g' eq_refl N') as [B1 B0].
  rewrite C1 in A1. rewrite C0 in A0. injection A1 as ->. injection A0 as ->.
  rewrite B1, B0, En. split; f_equal.
  - rewrite (count_of_change (active self) (active {| _graph := Some g' |}) (nx.nodes g) e N I).
    + unfold active. now rewrite Te, T.
    + intros x Nx. unfold active. now rewrite (To x Nx).
  - rewrite (count_of_change (inactive self) (inactive {| _graph := Some g' |}) (nx.nodes g) e N I).
    + unfold inactive. now rewrite Te, T.
    + intros x Nx. unfold inactive. now rewrite (To x Nx).
Qed.

Lemma set_particle_moves_counts_witness :
  snd (set_particle (constructed (__init__ (Some DEFAULT_DIM) (Some path3))) (0, 2) (PyInt 1))
    = Ok tt /\
  get_edge_count
    (fst (set_particle (constructed (__init__ (Some DEFAULT_DIM) (Some path3))) (0, 2) (PyInt 1)))
    = Ok (2 - b2z (0 =? 1) + b2z (1 =? 1)) /\
  get_none_edge_count
    (fst (set_particle (constructed (__init__ (Some DEFAULT_DIM) (Some path3))) (0, 2) (PyInt 1)))
    = Ok (1 - b2z (0 =? 0) + b2z (1 =? 0)).
Proof.
  apply (set_particle_moves_counts (constructed (__init__ (Some DEFAULT_DIM) (Some path3)))
           (0, 2) (PyInt 1) 0 1 2 1).
  - apply (index_graph DEFAULT_DIM path3). reflexivity.
  - reflexivity.
  - reflexivity.
  - reflexivity.
  - reflexivity.
Defined.

(** ** Neighbourhoods *)

Lemma set_edge_type_step self e v :
  fst (set_edge_type self e v) = self \/
  exists g g' z,
    py_int v = Ok z /\ _graph self = Some g /\ nx.set_node_type g e z = Ok g' /\
    fst (set_edge_type self e v) = {| _graph := Some g' |}.
Proof.
  unfold set_edge_type, the_graph.
  destruct (py_int v) as [z|[]] eqn:E; auto.
  destruct (_graph self) as [g|] eqn:G; auto.
  destruct (nx.set_node_type g e z) as [g'|x] eqn:S; auto.
  right. exists g, g', z. auto.
Qed.

(** Calls of [set_particle] keep the graph, its nodes and its adjacency. *)
Lemma apply_calls_graph calls w g :
  _graph w = Some g ->
  exists g', _graph (apply_calls w calls) = Some g' /\ nx.nodes g' = nx.nodes g /\
             forall x, nx.adj g' x = nx.adj g x.
Proof.
  unfold apply_calls. revert w g.
  induction calls as [|[id v] r IH]; intros w g G; simpl.
  - exists g. auto.
  - unfold set_particle.
    destruct (set_edge_type_step w id v) as [-> | [g0 [g1 [z [_ [G0 [S ->]]]]]]].
    + now apply IH.
    + rewrite G in G0. injection G0 as <-.
      apply set_node_type_inv in S. destruct S as [_ [En [Ea _]]].
      destruct (IH {| _graph := Some g1 |} g1 eq_refl) as [g' [G' [N' A']]].
      exists g'. split; auto. split; [congruence|]. intros x. now rewrite A', Ea.
Qed.

Lemma get_edge_type_other self e v t :
  t <> e -> get_edge_type (fst (set_edge_type self e v)) t = get_edge_type self t.
Proof.
  intros N. destruct (set_edge_type_step self e v) as [-> | [g [g' [z [_ [G [S ->]]]]]]]; auto.
  now apply (proj2 (@get_edge_type_set self g g' e z G S)).
Qed.

Lemma filterM_ext_in (A : Type) (p q : A -> result bool) (l : list A) :
  (forall x, In x l -> p x = q x) -> filterM p l = filterM q l.
Proof.
  induction l as [|a r IH]; intros E; simpl; auto.
  rewrite (E a) by (now left). rewrite IH by (intros x I; apply E; now right).
  reflexivity.
Qed.

Lemma graph_neighbors_adj self g e :
  _graph self = Some g ->
  graph_neighbors self e
  = if nx.has_node g e then Ok (Dict.keys (nx.adj g e)) else Raise NetworkXError.
Proof.
  intros G. unfold graph_neighbors, the_graph, nx.neighbors, nx.has_node, Dict.mem, nx.adj.
  rewrite G. simpl. now destruct (Dict.get g e).
Qed.

Lemma neighbourhood_filter self g e :
  _graph self = Some g -> well_typed g -> In e (nx.nodes g) ->
  get_edge_neighbourhood self e = Ok (filter (active self) (Dict.keys (nx.adj g e))).
Proof.
  intros G W I. unfold get_edge_neighbourhood.
  rewrite (graph_neighbors_adj self g e G), (proj2 (@has_node_In _ _ g e) I). simpl.
  apply filterM_total. intros x Ix.
  eapply is_active_edge_active; eauto.
  destruct W as [C _]. apply (C e x). now apply has_edge_In.
Qed.

Lemma active_true self e : active self e = true <-> get_particle self e = Ok 1.
Proof.
  unfold active, get_particle. destruct (get_edge_type self e) as [t|x].
  - rewrite Z.eqb_eq. split; congruence.
  - split; discriminate.
Qed.

Lemma get_edge_type_present self e t : get_edge_type self e = Ok t -> present self e.
Proof.
  unfold get_edge_type, the_graph. destruct (_graph self) as [g|] eqn:G; [|discriminate].
  simpl. destruct (Dict.get g e) as [d|] eqn:D; [|discriminate]. intros _.
  apply (proj2 (@present_In self g e G)). eapply get_Some_keys; eauto.
Qed.

Lemma neighbourhood_present self e act :
  get_edge_neighbourhood self e = Ok act -> present self e.
Proof.
  unfold get_edge_neighbourhood, graph_neighbors, the_graph, nx.neighbors.
  destruct (_graph self) as [g|] eqn:G; [|discriminate]. simpl.
  destruct (Dict.get g e) as [d|] eqn:D; [|discriminate]. intros _.
  apply (proj2 (@present_In self g e G)). eapply get_Some_keys; eauto.
Qed.

(** X11.  On every index, the active neighbourhood of an edge identifier
    lists no identifier twice and never the identifier itself; each member
    is an element of type 1; and two active elements are in each other's
    neighbourhood or in neither. *)
Theorem active_neighbourhood_structure (self : GraphWrapper) (e : EdgeId)
    (neighs : list EdgeId) :
  index self -> get_edge_neighbourhood self e = Ok neighs ->
  NoDup neighs /\ ~ In e neighs /\
  forall e', In e' neighs ->
    present self e' /\ get_particle self e' = Ok 1 /\
    (get_particle self e = Ok 1 ->
     exists neighs', get_edge_neighbourhood self e' = Ok neighs' /\ In e neighs').
Proof.
  intros X E. destruct (index_ok self X) as [g [G [W [_ [D [I S]]]]]].
  assert (P := neighbourhood_present self e neighs E).
  apply (proj1 (@present_In self g e G)) in P.
  rewrite (neighbourhood_filter self g e G W P) in E. injection E as <-.
  split; [apply NoDup_filter, D|]. split.
  - intros F. apply filter_In in F. destruct F as [F _].
    apply has_edge_In in F. rewrite I in F. discriminate.
  - intros e' F. apply filter_In in F. destruct F as [F A].
    apply has_edge_In in F.
    assert (P' : In e' (nx.nodes g)) by (destruct W as [C _]; now apply (C e e')).
    split; [now apply (proj2 (@present_In self g e' G))|].
    split; [now apply active_true|].
    intros T. exists (filter (active self) (Dict.keys (nx.adj g e'))).
    split; [now apply neighbourhood_filter|].
    apply filter_In. split.
    + apply has_edge_In. now apply S.
    + now apply active_true.
Qed.

Lemma active_neighbourhood_structure_witness :
  NoDup [(0, 1)] /\ ~ In (1, 2) [(0, 1)] /\
  forall e', In e' [(0, 1)] ->
    present (constructed (__init__ (Some DEFAULT_DIM) (Some path3))) e' /\
    get_particle (constructed (__init__ (Some DEFAULT_DIM) (Some path3))) e' = Ok 1 /\
    (get_particle (constructed (__init__ (Some DEFAULT_DIM) (Some path3))) (1, 2) = Ok 1 ->
     exists neighs',
       get_edge_neighbourhood (constructed (__init__ (Some DEFAULT_DIM) (Some path3))) e'
         = Ok neighs' /\ In (1, 2) neighs').
Proof.
  apply (active_neighbourhood_structure
           (constructed (__init__ (Some DEFAULT_DIM) (Some path3))) (1, 2) [(0, 1)]).
  - apply (index_graph DEFAULT_DIM path3). reflexivity.
  - reflexivity.
Defined.

(** X12.  A call of [set_particle] on [e], whatever its value and
    outcome, leaves the active neighbourhood of [e] itself as it was, and
    that of every edge identifier that does not have [e] for neighbour:
    on an index, the type of [e] is only seen from the neighbours of
    [e]. *)
Theorem write_is_seen_by_neighbours_only (self : GraphWrapper) (e : EdgeId) (v : pyval) :
  index self ->
  get_edge_neighbourhood (fst (set_particle self e v)) e = get_edge_neighbourhood self e /\
  forall e' ns,
    graph_neighbors self e' = Ok ns -> ~ In e ns ->
    get_edge_neighbourhood (fst (set_particle self e v)) e'
    = get_edge_neighbourhood self e'.
Proof.
  intros X.
  assert (F : forall e' ns, graph_neighbors self e' = Ok ns -> ~ In e ns ->
              get_edge_neighbourhood (fst (set_particle self e v)) e'
              = get_edge_neighbourhood self e').
  { intros e' ns E N. unfold get_edge_neighbourhood, set_particle.
    rewrite (proj2 (set_edge_type_frame self e v) e'), E. simpl.
    apply filterM_ext_in. intros t It. unfold is_active_edge.
    rewrite get_edge_type_other; [reflexivity | congruence]. }
  split; [|exact F].
  destruct (graph_neighbors self e) as [ns|x] eqn:E.
  - apply (F e ns E). destruct (index_ok self X) as [g [G [_ [_ [_ [I _]]]]]].
    rewrite (graph_neighbors_adj self g e G) in E.
    destruct (nx.has_node g e); [|discriminate]. injection E as <-.
    intros In_e. apply has_edge_In in In_e. rewrite I in In_e. discriminate.
  - unfold get_edge_neighbourhood, set_particle.
    now rewrite (proj2 (set_edge_type_frame self e v) e), E.
Qed.

Lemma write_is_seen_by_neighbours_only_witness :
  get_edge_neighbourhood
    (fst (set_particle (constructed (__init__ (Some 4) None)) (0, 1) (PyInt 1))) (0, 1)
  = get_edge_neighbourhood (constructed (__init__ (Some 4) None)) (0, 1) /\
  forall e' ns,
    graph_neighbors (constructed (__init__ (Some 4) None)) e' = Ok ns -> ~ In (0, 1) ns ->
    get_edge_neighbourhood
      (fst (set_particle (constructed (__init__ (Some 4) None)) (0, 1) (PyInt 1))) e'
    = get_edge_neighbourhood (constructed (__init__ (Some 4) None)) e'.
Proof.
  apply (write_is_seen_by_neighbours_only (constructed (__init__ (Some 4) None))
           (0, 1) (PyInt 1)).
  apply (index_complete 4). reflexivity.
Defined.

(** ** Two-valued types *)

Lemma binary_complete dim :
  binary_graph (nx.set_node_attributes_all (line_graph (complete_on (range dim))) 0).
Proof.
  intros e I. left. unfold nx.node_type.
  rewrite get_set_node_attributes_all. rewrite nodes_set_node_attributes_all in I.
  apply In_keys_get in I. destruct I as [d ->]. reflexivity.
Qed.

Lemma binary_index_of_graph gr : binary_graph (index_of_graph gr).
Proof.
  intros e I. apply In_nodes_index_of_graph in I. destruct I as [u [v [E ->]]].
  rewrite (node_type_index_of_graph gr u v E).
  apply has_edge_typed_graph in E. destruct E as [E|E].
  - right. now apply edge_type_typed_graph_source.
  - left. now apply edge_type_typed_graph_complement.
Qed.

Lemma binary_set_node_type g g' n z :
  binary_graph g -> z = 0 \/ z = 1 -> nx.set_node_type g n z = Ok g' -> binary_graph g'.
Proof.
  intros B Z S. apply set_node_type_inv in S. destruct S as [_ [En [_ Et]]].
  intros e I. rewrite En in I. rewrite Et.
  destruct (key_eqb e n); [destruct Z as [-> | ->]; auto | now apply B].
Qed.

Lemma binary_after_calls calls w g :
  _graph w = Some g -> binary_graph g -> Forall binary_call calls ->
  exists g', _graph (apply_calls w calls) = Some g' /\ binary_graph g'.
Proof.
  unfold apply_calls. revert w g.
  induction calls as [|[id v] r IH]; intros w g G B F; simpl.
  - eauto.
  - inversion F as [|? ? Fc Fr]; subst. unfold set_particle.
    destruct (set_edge_type_step w id v) as [-> | [g0 [g1 [z [E [G0 [S ->]]]]]]].
    + now apply (IH w g).
    + rewrite G in G0. injection G0 as <-.
      apply (IH {| _graph := Some g1 |} g1); auto.
      apply (binary_set_node_type g g1 id z); auto.
Qed.

Lemma count_of_partition (f h : EdgeId -> bool) (l : list EdgeId) :
  (forall x, In x l -> f x = negb (h x)) ->
  count_of f l + count_of h l = Z.of_nat (List.length l).
Proof.
  unfold count_of. induction l as [|a r IH]; intros E; cbn [filter List.length]; [lia|].
  rewrite (E a) by (now left).
  assert (X := IH (fun x I => E x (or_intror I))).
  destruct (h a); cbn [negb List.length]; lia.
Qed.

Lemma init_index dim gr w : __init__ (Some dim) gr = Ok w -> index w.
Proof.
  destruct gr as [o|]; intros E.
  - now apply (index_graph dim o).
  - now apply (index_complete dim).
Qed.

Lemma init_binary dim gr w :
  __init__ (Some dim) gr = Ok w -> exists g, _graph w = Some g /\ binary_graph g.
Proof.
  destruct gr as [o|]; intros E.
  - apply init_graph_inv in E. destruct E as [_ ->].
    eexists. split; [reflexivity | apply binary_index_of_graph].
  - apply init_count_inv in E. destruct E as [_ ->].
    eexists. split; [reflexivity | apply binary_complete].
Qed.

(** X13.  The constructor types every element 0 or 1, and as long as the
    values written by [set_particle] are ones [int] coerces to 0 or 1 (or
    rejects), every element keeps a type in {0, 1}; [get_edge_count] and
    [get_none_edge_count] then add up to the number of elements. *)
Theorem binary_types_partition (dim : Z) (gr : option nx_object) (w : GraphWrapper)
    (calls : list (EdgeId * pyval)) :
  __init__ (Some dim) gr = Ok w -> Forall binary_call calls ->
  exists elements n1 n0,
    get_elements (apply_calls w calls) = Ok elements /\
    (forall e, In e elements ->
       get_particle (apply_calls w calls) e = Ok 0 \/
       get_particle (apply_calls w calls) e = Ok 1) /\
    get_edge_count (apply_calls w calls) = Ok n1 /\
    get_none_edge_count (apply_calls w calls) = Ok n0 /\
    n1 + n0 = Z.of_nat (List.length elements).
Proof.
  intros E F.
  destruct (init_binary dim gr w E) as [g0 [G0 B0]].
  destruct (binary_after_calls calls w g0 G0 B0 F) as [g [G B]].
  assert (X : index (apply_calls w calls)).
  { apply index_apply_calls. eapply init_index; eauto. }
  destruct (index_ok _ X) as [g' [G' [_ [N _]]]].
  rewrite G in G'. injection G' as <-.
  destruct (edge_counts (apply_calls w calls) g G N) as [C1 C0].
  assert (T : forall e, In e (nx.nodes g) ->
            get_edge_type (apply_calls w calls) e = Ok 0 \/
            get_edge_type (apply_calls w calls) e = Ok 1).
  { intros e I. rewrite (get_edge_type_as_node_type _ g e G).
    destruct (B e I) as [-> | ->]; auto. }
  exists (nx.nodes g), (count_of (active (apply_calls w calls)) (nx.nodes g)),
    (count_of (inactive (apply_calls w calls)) (nx.nodes g)).
  split; [unfold get_elements, the_graph; now rewrite G|].
  split; [exact T|]. split; [exact C1|]. split; [exact C0|].
  apply count_of_partition. intros e I. unfold active, inactive.
  destruct (T e I) as [-> | ->]; reflexivity.
Qed.

Lemma binary_types_partition_witness :
  exists elements n1 n0,
    get_elements (apply_calls (constructed (__init__ (Some DEFAULT_DIM) (Some path3)))
                              [((0, 2), PyInt 1); ((0, 1), PyStr "0"); ((1, 2), PyStr "no")])
      = Ok elements /\
    (forall e, In e elements ->
       get_particle (apply_calls (constructed (__init__ (Some DEFAULT_DIM) (Some path3)))
                       [((0, 2), PyInt 1); ((0, 1), PyStr "0"); ((1, 2), PyStr "no")]) e = Ok 0 \/
       get_particle (apply_calls (constructed (__init__ (Some DEFAULT_DIM) (Some path3)))
                       [((0, 2), PyInt 1); ((0, 1), PyStr "0"); ((1, 2), PyStr "no")]) e = Ok 1) /\
    get_edge_count (apply_calls (constructed (__init__ (Some DEFAULT_DIM) (Some path3)))
                      [((0, 2), PyInt 1); ((0, 1), PyStr "0"); ((1, 2), PyStr "no")]) = Ok n1 /\
    get_none_edge_count (apply_calls (constructed (__init__ (Some DEFAULT_DIM) (Some path3)))
                      [((0, 2), PyInt 1); ((0, 1), PyStr "0"); ((1, 2), PyStr "no")]) = Ok n0 /\
    n1 + n0 = Z.of_nat (List.length elements).
Proof.
  apply (binary_types_partition DEFAULT_DIM (Some path3)
           (constructed (__init__ (Some DEFAULT_DIM) (Some path3)))
           [((0, 2), PyInt 1); ((0, 1), PyStr "0"); ((1, 2), PyStr "no")]).
  - reflexivity.
  - apply Forall_cons; [intros z E; injection E as <-; now right|].
    apply Forall_cons; [intros z E; injection E as <-; now left|].
    apply Forall_cons; [intros z E; discriminate E|].
    apply Forall_nil.
Defined.

(** ** The index of a node count or of a simple graph *)

Lemma sorted_node_ends x y :
  (fst (sorted_node x y) = x /\ snd (sorted_node x y) = y) \/
  (fst (sorted_node x y) = y /\ snd (sorted_node x y) = x).
Proof. unfold sorted_node. destruct (x <=? y); simpl; auto. Qed.

Lemma In_incident_ends G x y :
  nx.has_edge G x y = true -> nx.has_edge G y x = true ->
  In (sorted_node x y) (incident G (fst (sorted_node x y))) /\
  In (sorted_node x y) (incident G (snd (sorted_node x y))).
Proof.
  intros E E'.
  assert (A : In (sorted_node x y) (incident G x)).
  { apply In_incident. exists y. auto. }
  assert (B : In (sorted_node x y) (incident G y)).
  { apply In_incident. exists x. split; auto. apply sorted_node_comm. }
  destruct (sorted_node_ends x y) as [[E1 E2]|[E1 E2]]; rewrite E1, E2; auto.
Qed.

Lemma In_nodes_line_graph_complete G N u v :
  complete_over G N ->
  In (u, v) (nx.nodes (line_graph G)) <-> u < v /\ In u N /\ In v N.
Proof.
  intros C. rewrite In_nodes_line_graph. split.
  - intros [a [b [E S]]]. apply C in E. destruct E as [Ne [Ia Ib]].
    unfold sorted_node in S.
    destruct (Z.leb_spec a b); injection S as -> ->; repeat split; auto; lia.
  - intros [L [Iu Iv]]. exists u, v. split.
    + apply C. repeat split; auto. lia.
    + symmetry. now apply sorted_node_lt.
Qed.

(** In the line graph of a complete graph, two nodes are adjacent when
    they are distinct and have an endpoint in common. *)
Lemma has_edge_line_graph_complete G N a b :
  adj_distinct G -> complete_over G N ->
  nx.has_edge (line_graph G) a b = true <->
  a <> b /\ In a (nx.nodes (line_graph G)) /\ In b (nx.nodes (line_graph G)) /\
  shares_endpoint a b.
Proof.
  intros D C. rewrite (has_edge_line_graph G a b D). split.
  - intros [Nab [u [Ia Ib]]]. apply In_incident in Ia, Ib.
    destruct Ia as [v [Ev Ea]], Ib as [v' [Ev' Eb]].
    split; auto. split; [apply In_nodes_line_graph; eauto|].
    split; [apply In_nodes_line_graph; eauto|].
    unfold shares_endpoint. rewrite Ea, Eb.
    destruct (sorted_node_ends u v) as [[-> ->]|[-> ->]],
             (sorted_node_ends u v') as [[-> ->]|[-> ->]]; auto.
  - intros [Nab [Ia [Ib Sh]]]. split; auto.
    apply In_nodes_line_graph in Ia, Ib.
    destruct Ia as [x [y [Exy Ea]]], Ib as [x' [y' [Exy' Eb]]].
    assert (Eyx : nx.has_edge G y x = true).
    { apply C. apply C in Exy. destruct Exy as [? [? ?]]. auto. }
    assert (Eyx' : nx.has_edge G y' x' = true).
    { apply C. apply C in Exy'. destruct Exy' as [? [? ?]]. auto. }
    destruct (In_incident_ends G x y Exy Eyx) as [A1 A2].
    destruct (In_incident_ends G x' y' Exy' Eyx') as [B1 B2].
    rewrite <- Ea in A1, A2. rewrite <- Eb in B1, B2.
    destruct Sh as [S|[S|[S|S]]].
    + exists (fst a). split; auto. now rewrite S.
    + exists (fst a). split; auto. now rewrite S.
    + exists (snd a). split; auto. now rewrite S.
    + exists (snd a). split; auto. now rewrite S.
Qed.

Lemma NoDup_range n : NoDup (range n).
Proof.
  unfold range. apply NoDup_map_NoDup_ForallPairs; [|apply seq_NoDup].
  intros a b _ _. apply Nat2Z.inj.
Qed.

Lemma In_combinations2 (A : Type) (l : list A) (a b : A) :
  In (a, b) (combinations2 l) -> In a l /\ In b l.
Proof.
  induction l as [|x r IH]; simpl; [tauto|].
  rewrite in_app_iff, in_map_iff. intros [[y [[= <- <-] I]]|I]; auto.
  apply IH in I. tauto.
Qed.

Lemma combinations2_one_way (l : list Z) (a b : Z) :
  NoDup l -> In (a, b) (combinations2 l) -> a <> b /\ ~ In (b, a) (combinations2 l).
Proof.
  induction l as [|x r IH]; simpl; [tauto|].
  intros N. inversion N as [|? ? Nx Nr]; subst.
  rewrite !in_app_iff, !in_map_iff. intros [[y [E I]]|I].
  - injection E as <- <-. split; [congruence|].
    intros [[z [E _]]|J].
    + injection E as <- <-. contradiction.
    + apply In_combinations2 in J. tauto.
  - destruct (IH Nr I) as [Nab NJ]. split; auto.
    intros [[z [E Iz]]|J]; [|contradiction].
    injection E as <- <-. apply In_combinations2 in I. tauto.
Qed.

Lemma In_combinations2_either (l : list Z) (a b : Z) :
  In a l -> In b l -> a <> b ->
  In (a, b) (combinations2 l) \/ In (b, a) (combinations2 l).
Proof.
  induction l as [|x r IH]; simpl; [tauto|].
  intros [->|Ia] [->|Ib] N; try congruence.
  - left. apply in_app_iff. left. now apply in_map.
  - right. apply in_app_iff. left. now apply in_map.
  - destruct (IH Ia Ib N); [left | right]; apply in_app_iff; now right.
Qed.

Lemma NoDup_combinations2 (l : list Z) : NoDup l -> NoDup (combinations2 l).
Proof.
  induction l as [|x r IH]; simpl; [constructor|].
  intros N. inversion N as [|? ? Nx Nr]; subst. apply NoDup_app.
  - apply NoDup_map_NoDup_ForallPairs; auto.
    intros a b _ _ E. now injection E.
  - auto.
  - intros [a b] I J. apply in_map_iff in I. destruct I as [y [E _]].
    injection E as <- <-. apply In_combinations2 in J. tauto.
Qed.

Lemma length_combinations2 (A : Type) (l : list A) :
  2 * Z.of_nat (List.length (combinations2 l))
  = Z.of_nat (List.length l) * (Z.of_nat (List.length l) - 1).
Proof.
  induction l as [|x r IH]; [reflexivity|].
  cbn [combinations2 List.length]. rewrite length_app, length_map. nia.
Qed.

(** The pairs [u < v] over [n] distinct numbers are [n (n - 1) / 2]. *)
Lemma length_pairs (N : list Z) (l : list EdgeId) :
  NoDup N -> NoDup l -> (forall u v, In (u, v) l <-> u < v /\ In u N /\ In v N) ->
  2 * Z.of_nat (List.length l) = Z.of_nat (List.length N) * (Z.of_nat (List.length N) - 1).
Proof.
  intros NN Nl C. rewrite <- (length_combinations2 Z N).
  assert (P : Permutation l (map sorted_key (combinations2 N))); [
    | apply Permutation_length in P; rewrite P, length_map; reflexivity ].
  apply NoDup_Permutation; auto.
  - apply NoDup_map_NoDup_ForallPairs; [|now apply NoDup_combinations2].
    intros [a b] [c d] I J E. unfold sorted_key in E; simpl in E.
    apply sorted_node_eq in E. destruct E as [[-> ->]|[-> ->]]; auto.
    apply combinations2_one_way in I; auto. tauto.
  - intros [u v]. rewrite C, in_map_iff. split.
    + intros [L [Iu Iv]].
      destruct (In_combinations2_either N u v Iu Iv) as [I|I]; [lia| |].
      * exists (u, v). split; auto. unfold sorted_key; simpl. now apply sorted_node_lt.
      * exists (v, u). split; auto. unfold sorted_key; simpl.
        rewrite sorted_node_comm. now apply sorted_node_lt.
    + intros [[a b] [E I]]. destruct (combinations2_one_way N a b NN I) as [Nab _].
      apply In_combinations2 in I. unfold sorted_key, sorted_node in E; simpl in E.
      destruct (Z.leb_spec a b); injection E as <- <-; repeat split; try tauto; lia.
Qed.

(** What the constructor stores for a node count or a simple graph: the
    line graph of a complete graph over the nodes, with types. *)
Lemma init_simple dim gr w :
  simple_input gr -> __init__ (Some dim) gr = Ok w ->
  exists g G N,
    _graph w = Some g /\ adj_distinct G /\ complete_over G N /\ NoDup N /\
    Z.of_nat (List.length N) = node_count dim gr /\
    nx.nodes g = nx.nodes (line_graph G) /\
    (forall x, nx.adj g x = nx.adj (line_graph G) x).
Proof.
  destruct gr as [o|]; cbn [simple_input node_count]; intros S E.
  - apply init_graph_inv in E. destruct E as [_ ->].
    exists (index_of_graph (content o)), (typed_graph (content o)), (nx.nodes (content o)).
    split; [reflexivity|]. split; [apply adj_distinct_typed_graph|].
    split; [intros x y; now apply has_edge_typed_graph_simple|].
    split; [now apply is_simple_NoDup|].
    split; [unfold nx.number_of_nodes, nx.nodes, Dict.keys; now rewrite length_map|].
    split; [apply nodes_index_of_graph | intros x; apply adj_index_of_graph].
  - apply init_count_inv in E. destruct E as [L ->].
    exists (nx.set_node_attributes_all (line_graph (complete_on (range dim))) 0),
      (complete_on (range dim)), (range dim).
    split; [reflexivity|]. split; [apply adj_distinct_complete_on|].
    split; [intros x y; rewrite has_edge_complete_graph, !In_range; tauto|].
    split; [apply NoDup_range|].
    split; [unfold range; rewrite length_map, length_seq; lia|].
    split; [apply nodes_set_node_attributes_all | intros x; apply adj_set_node_attributes_all].
Qed.

(** X14.  Built from a node count or from a simple graph, then changed by
    any calls of [set_particle]: the active neighbourhood of an element
    [e] is made of the other edge identifiers that have an endpoint in
    common with [e] and whose type is 1, and of nothing else. *)
Theorem neighbourhood_is_the_active_edges_at_the_endpoints (dim : Z)
    (gr : option nx_object) (w : GraphWrapper) (calls : list (EdgeId * pyval))
    (e : EdgeId) :
  simple_input gr -> __init__ (Some dim) gr = Ok w -> present w e ->
  exists neighs,
    get_edge_neighbourhood (apply_calls w calls) e = Ok neighs /\
    forall e', In e' neighs <->
      e' <> e /\ shares_endpoint e e' /\ get_particle (apply_calls w calls) e' = Ok 1.
Proof.
  intros S E P.
  destruct (init_simple dim gr w S E) as [g0 [G [N [G0 [D [C [_ [_ [En Ea]]]]]]]]].
  destruct (apply_calls_graph calls w g0 G0) as [g [Gg [En' Ea']]].
  assert (X : index (apply_calls w calls)).
  { apply index_apply_calls. eapply init_index; eauto. }
  destruct (index_ok _ X) as [g' [G' [W _]]].
  rewrite Gg in G'. injection G' as <-.
  apply (proj1 (@present_In w g0 e G0)) in P.
  assert (Pe : In e (nx.nodes g)) by (now rewrite En').
  exists (filter (active (apply_calls w calls)) (Dict.keys (nx.adj g e))).
  split; [now apply neighbourhood_filter|].
  assert (H : forall e', nx.has_edge g e e' = nx.has_edge (line_graph G) e e').
  { intros e'. unfold nx.has_edge. now rewrite Ea', Ea. }
  intros e'. rewrite filter_In, active_true, <- has_edge_In, H.
  rewrite (has_edge_line_graph_complete G N e e' D C). split.
  - intros [[Ne [_ [_ Sh]]] T]. split; [congruence | auto].
  - intros [Ne [Sh T]]. split; auto. split; [congruence|].
    split; [now rewrite <- En|]. split; auto.
    rewrite <- En, <- En'.
    apply (proj1 (@present_In (apply_calls w calls) g e' Gg)).
    eapply get_edge_type_present; eauto.
Qed.

Lemma neighbourhood_is_the_active_edges_at_the_endpoints_witness :
  exists neighs,
    get_edge_neighbourhood
      (apply_calls (constructed (__init__ (Some 4) None)) [((0, 1), PyInt 1); ((2, 3), PyInt 1)])
      (1, 2) = Ok neighs /\
    forall e', In e' neighs <->
      e' <> (1, 2) /\ shares_endpoint (1, 2) e' /\
      get_particle
        (apply_calls (constructed (__init__ (Some 4) None))
                     [((0, 1), PyInt 1); ((2, 3), PyInt 1)]) e' = Ok 1.
Proof.
  apply (neighbourhood_is_the_active_edges_at_the_endpoints 4 None
           (constructed (__init__ (Some 4) None))
           [((0, 1), PyInt 1); ((2, 3), PyInt 1)] (1, 2)).
  - exact I.
  - reflexivity.
  - exists [(0, 1); (0, 2); (0, 3); (1, 2); (1, 3); (2, 3)].
    split; [reflexivity | simpl; auto].
Defined.

(** X15.  Built from a node count [n], or from a simple graph with [n]
    nodes (whatever [dim] is then), the index has [n (n - 1) / 2]
    elements, and calls of [set_particle] never change that number. *)
Theorem number_of_elements (dim : Z) (gr : option nx_object) (w : GraphWrapper)
    (calls : list (EdgeId * pyval)) :
  simple_input gr -> __init__ (Some dim) gr = Ok w ->
  exists elements,
    get_elements (apply_calls w calls) = Ok elements /\
    2 * Z.of_nat (List.length elements) = node_count dim gr * (node_count dim gr - 1).
Proof.
  intros S E.
  destruct (init_simple dim gr w S E) as [g0 [G [N [G0 [D [C [NN [L [En Ea]]]]]]]]].
  destruct (apply_calls_graph calls w g0 G0) as [g [Gg [En' Ea']]].
  exists (nx.nodes g). split; [unfold get_elements, the_graph; now rewrite Gg|].
  rewrite <- L. apply length_pairs; auto.
  - rewrite En', En. apply line_graph_inv.
  - intros u v. rewrite En', En. now apply In_nodes_line_graph_complete.
Qed.

Lemma number_of_elements_witness :
  exists elements,
    get_elements (apply_calls (constructed (__init__ (Some 2) (Some path3)))
                              [((0, 2), PyInt 1)]) = Ok elements /\
    2 * Z.of_nat (List.length elements)
    = node_count 2 (Some path3) * (node_count 2 (Some path3) - 1).
Proof.
  apply (number_of_elements 2 (Some path3) (constructed (__init__ (Some 2) (Some path3)))
           [((0, 2), PyInt 1)]).
  - reflexivity.
  - reflexivity.
Defined.

Lemma node_type_complete dim e :
  In e (nx.nodes (nx.set_node_attributes_all (line_graph (complete_on (range dim))) 0)) ->
  nx.node_type (nx.set_node_attributes_all (line_graph (complete_on (range dim))) 0) e
  = Some 0.
Proof.
  intros I. unfold nx.node_type.
  rewrite get_set_node_attributes_all. rewrite nodes_set_node_attributes_all in I.
  apply In_keys_get in I. destruct I as [d ->]. reflexivity.
Qed.

Lemma filter_none (A : Type) (f : A -> bool) (l : list A) :
  (forall x, In x l -> f x = false) -> filter f l = [].
Proof.
  induction l as [|a r IH]; intros E; simpl; auto.
  rewrite (E a) by (now left). apply IH. intros x I. apply E. now right.
Qed.

Lemma filter_all (A : Type) (f : A -> bool) (l : list A) :
  (forall x, In x l -> f x = true) -> filter f l = l.
Proof.
  induction l as [|a r IH]; intros E; simpl; auto.
  rewrite (E a) by (now left). f_equal. apply IH. intros x I. apply E. now right.
Qed.

(** X16.  Built from a node count alone, the index starts with no active
    edge: [get_active_edges] is empty, [get_edge_count] is 0,
    [get_none_edge_count] is the number [dim (dim - 1) / 2] of elements,
    and the active neighbourhood of every element is empty. *)
Theorem fresh_index_from_count (dim : Z) (w : GraphWrapper) :
  __init__ (Some dim) None = Ok w ->
  get_active_edges w = Ok [] /\
  get_edge_count w = Ok 0 /\
  (exists n0, get_none_edge_count w = Ok n0 /\ 2 * n0 = dim * (dim - 1)) /\
  forall e, present w e -> get_edge_neighbourhood w e = Ok [].
Proof.
  intros E.
  assert (X : index w) by (now apply (index_complete dim)).
  destruct (index_ok w X) as [g [G [W [N _]]]].
  destruct (init_simple dim None w I E) as [g0 [G0 [N0 [Gg [D [C [NN [L [En Ea]]]]]]]]].
  rewrite G in Gg. injection Gg as <-. cbn [node_count] in L.
  assert (T : forall e, In e (nx.nodes g) -> nx.node_type g e = Some 0).
  { destruct (@init_count_inv dim w E) as [_ Ew]. rewrite Ew in G. simpl in G.
    injection G as <-. intros e. apply node_type_complete. }
  assert (A : forall e, In e (nx.nodes g) -> active w e = false).
  { intros e Ie. rewrite (active_as_node_type w g e G), (T e Ie). reflexivity. }
  assert (B : forall e, In e (nx.nodes g) -> inactive w e = true).
  { intros e Ie. rewrite (inactive_as_node_type w g e G), (T e Ie). reflexivity. }
  destruct (edge_counts w g G N) as [C1 C0].
  split; [|split; [|split]].
  - rewrite (active_edges_filter w g G W). now rewrite filter_none.
  - rewrite C1. unfold count_of. now rewrite filter_none.
  - exists (count_of (inactive w) (nx.nodes g)). split; [exact C0|].
    unfold count_of. rewrite filter_all by exact B. rewrite <- L.
    apply length_pairs; auto.
    intros u v. rewrite En. now apply In_nodes_line_graph_complete.
  - intros e P. apply (proj1 (@present_In w g e G)) in P.
    rewrite (neighbourhood_filter w g e G W P). f_equal. apply filter_none.
    intros x Ix. apply A. destruct W as [Cl _]. apply (Cl e x). now apply has_edge_In.
Qed.

Lemma fresh_index_from_count_witness :
  get_active_edges (constructed (__init__ (Some 4) None)) = Ok [] /\
  get_edge_count (constructed (__init__ (Some 4) None)) = Ok 0 /\
  (exists n0, get_none_edge_count (constructed (__init__ (Some 4) None)) = Ok n0 /\
              2 * n0 = 4 * (4 - 1)) /\
  forall e, present (constructed (__init__ (Some 4) None)) e ->
            get_edge_neighbourhood (constructed (__init__ (Some 4) None)) e = Ok [].
Proof.
  apply (fresh_index_from_count 4 (constructed (__init__ (Some 4) None))).
  reflexivity.
Defined.

(** ** The initial dimension of the smallest indices *)

(** X17.  [get_initial_dim] on an index without any element returns 1,
    and on an index with a single element returns 2, whatever the type of
    that element: built from the node counts 0, 1 and 2 it returns 1, 1
    and 2. *)
Theorem initial_dim_of_small_indices (self : GraphWrapper) (fuel : nat) :
  (get_elements self = Ok [] -> get_initial_dim fuel self = Some (Ok 1)) /\
  (forall e, get_elements self = Ok [e] -> get_initial_dim fuel self = Some (Ok 2)).
Proof.
  unfold get_elements, get_initial_dim, the_graph.
  destruct (_graph self) as [g|]; simpl; split; try discriminate.
  - intros [= E]. destruct g; [reflexivity | discriminate].
  - intros e [= E]. destruct g as [|[k d] [|? ?]]; try discriminate.
    injection E as ->. unfold inverse_line_graph. cbn.
    destruct e as [a b].
    unfold nx.add_edge, nx.add_node, nx.set_adj, nx.edge_type, nx.adj, nx.empty,
      nx.number_of_nodes, Dict.mem. cbn.
    repeat (rewrite !Z.eqb_refl; cbn). reflexivity.
Qed.

Lemma initial_dim_of_small_indices_witness :
  get_initial_dim 0 (constructed (__init__ (Some 1) None)) = Some (Ok 1) /\
  get_initial_dim 0 (fst (set_particle (constructed (__init__ (Some 2) None)) (0, 1) (PyInt 1)))
    = Some (Ok 2).
Proof.
  split.
  - apply (proj1 (initial_dim_of_small_indices (constructed (__init__ (Some 1) None)) 0)).
    reflexivity.
  - apply (proj2 (initial_dim_of_small_indices
                    (fst (set_particle (constructed (__init__ (Some 2) None)) (0, 1) (PyInt 1)))
                    0) (0, 1)).
    reflexivity.
Defined.

(** ** The active edges after a write *)

(** X18.  On an index, a write of a value [int] coerces to [z] on an
    element [e] changes the list of active edges at [e] only: afterwards
    [e] is listed when [z] is 1 and not otherwise, and every other edge
    identifier is listed when it was before. *)
Theorem active_edges_after_write (self : GraphWrapper) (e : EdgeId) (v : pyval) (z : Z)
    (actives : list EdgeId) :
  index self -> present self e -> py_int v = Ok z ->
  get_active_edges self = Ok actives ->
  exists actives',
    get_active_edges (fst (set_particle self e v)) = Ok actives' /\
    forall x, In x actives' <-> (x = e /\ z = 1) \/ (x <> e /\ In x actives).
Proof.
  intros X P E A.
  destruct (index_ok self X) as [g [G [W _]]].
  apply (proj1 (@present_In self g e G)) in P.
  destruct (@set_edge_type_coerced self g e v z G P E) as [g' [S R]].
  destruct (@get_edge_type_set self g g' e z G S) as [Te To].
  assert (X' : index (fst (set_particle self e v))) by (now apply index_set).
  unfold set_particle in *. rewrite R in *. simpl in *.
  destruct (index_ok _ X') as [g'' [G' [W' _]]]. simpl in G'. injection G' as <-.
  assert (En : nx.nodes g' = nx.nodes g).
  { apply set_node_type_inv in S. tauto. }
  rewrite (active_edges_filter self g G W) in A. injection A as <-.
  exists (filter (active {| _graph := Some g' |}) (nx.nodes g')).
  split; [now apply active_edges_filter|].
  intros x. rewrite !filter_In, En, !active_true. unfold get_particle.
  destruct (key_eqb_spec x e) as [->|N].
  - rewrite Te. split.
    + intros [_ [= ->]]. auto.
    + intros [[_ ->]|[N _]]; [auto | now elim N].
  - rewrite (To x N). split.
    + intros [Ix T]. right. auto.
    + intros [[Ex _]|[_ [Ix T]]]; [now elim N | auto].
Qed.

Lemma active_edges_after_write_witness :
  exists actives',
    get_active_edges
      (fst (set_particle (constructed (__init__ (Some DEFAULT_DIM) (Some path3))) (0, 1)
                         (PyBool false))) = Ok actives' /\
    forall x, In x actives' <-> (x = (0, 1) /\ 0 = 1) \/ (x <> (0, 1) /\ In x [(0, 1); (1, 2)]).
Proof.
  apply (active_edges_after_write (constructed (__init__ (Some DEFAULT_DIM) (Some path3)))
           (0, 1) (PyBool false) 0 [(0, 1); (1, 2)]).
  - apply (index_graph DEFAULT_DIM path3). reflexivity.
  - exists [(0, 1); (0, 2); (1, 2)]. split; [reflexivity | simpl; auto].
  - reflexivity.
  - reflexivity.
Defined.
